(** * Phantom credential checker: detection, redaction and audit trace

    A shallow embedding of [inspector.py], [phantom_redactor.py] and
    [archestra.py], and the properties of the detection -> redaction ->
    trace pipeline proved over it.

    Conventions of the model:
    - a Python [str] is a [list ascii]; a character is a code point below
      256 (the patterns themselves are plain ASCII);
    - a Python [dict] whose keys are computed at run time is a
      [gmap string _]; a dict with a fixed set of keys is a record;
    - [time.time()] reads a clock [now]: the [n]-th reading made by the
      interceptor is [now n], readings are integers (clock ticks) and
      float rounding is not modelled;
    - a raised exception is [None]. *)

From Stdlib Require Import Ascii String ZArith QArith Decimal DecimalNat DecimalString.
From stdpp Require Import gmap strings list fin_maps sorting.

Local Open Scope nat_scope.

(** Python text. *)
Abbreviation text := (list ascii).

Definition txt (s : string) : text := list_ascii_of_string s.

(* ===================================================================== *)
(** * The regular expressions of [re], as far as [PATTERNS] uses them *)
(* ===================================================================== *)

Module Re.

Definition code (c : ascii) : N := N_of_ascii c.

Definition between (lo hi : N) (c : ascii) : bool :=
  (lo <=? code c)%N && (code c <=? hi)%N.

(** [\d]: the decimal digits. *)
Definition is_digit (c : ascii) : bool := between 48 57 c.

(** [\s]: the white space of [str.isspace] below code point 256. *)
Definition is_space (c : ascii) : bool :=
  between 9 13 c || between 28 32 c || (code c =? 133)%N || (code c =? 160)%N.

Definition is_upper (c : ascii) : bool := between 65 90 c.
Definition is_lower (c : ascii) : bool := between 97 122 c.

(** [\w]: alphanumeric characters and the underscore. *)
Definition is_word (c : ascii) : bool :=
  is_digit c || is_upper c || is_lower c || (code c =? 95)%N
  || (code c =? 170)%N || (code c =? 178)%N || (code c =? 179)%N
  || (code c =? 181)%N || (code c =? 185)%N || (code c =? 186)%N
  || between 188 190 c || between 192 214 c || between 216 246 c
  || between 248 255 c.

(** The other case of an ASCII letter; any other character is unchanged. *)
Definition swap_case (c : ascii) : ascii :=
  if is_upper c then ascii_of_N (code c + 32)
  else if is_lower c then ascii_of_N (code c - 32)
  else c.

(** The members of a bracket expression. *)
Inductive citem : Type :=
| CChar (c : ascii)
| CRange (lo hi : ascii)
| CDigit
| CSpace.

Definition item_has (it : citem) (c : ascii) : bool :=
  match it with
  | CChar d => (code c =? code d)%N
  | CRange lo hi => between (code lo) (code hi) c
  | CDigit => is_digit c
  | CSpace => is_space c
  end.

(** Membership of [c] in [[...]] ([neg = false]) or [[^...]]
    ([neg = true]); under [re.IGNORECASE] ([ic = true]) either case of
    [c] may be the member. *)
Definition in_set (ic neg : bool) (cs : list citem) (c : ascii) : bool :=
  xorb neg (existsb (fun it => item_has it c) cs
            || (ic && existsb (fun it => item_has it (swap_case c)) cs)).

Inductive regex : Type :=
| REps
| RBound                                       (* \b *)
| RSet (neg : bool) (cs : list citem)          (* one character *)
| RSeq (r1 r2 : regex)
| RAlt (r1 r2 : regex)                         (* r1|r2, r1 tried first *)
| RRep (r : regex) (lo hi : nat)               (* greedy r{lo,hi} *)
| RMany (neg : bool) (cs : list citem) (lo : nat). (* greedy [..]{lo,} *)

(** [\b]: exactly one of the two neighbours is a word character. *)
Definition word_at (c : option ascii) : bool :=
  match c with Some a => is_word a | None => false end.

Definition is_boundary (prev next : option ascii) : bool :=
  xorb (word_at prev) (word_at next).

(** A continuation receives the character before the cursor and the
    text after it, and answers with the text left after the whole
    match. *)
Definition cont : Type := option ascii -> text -> option text.

Definition or_else (a b : option text) : option text :=
  match a with Some x => Some x | None => b end.

Definition at_least (lo : nat) (k : cont) (prev : option ascii) (s : text)
  : option text :=
  match lo with 0 => k prev s | S _ => None end.

(** Greedy repetition of a one-character class: as many as possible,
    then one fewer at a time. *)
Fixpoint many (p : ascii -> bool) (lo : nat) (prev : option ascii)
  (s : text) (k : cont) : option text :=
  match s with
  | c :: s' =>
      if p c
      then or_else (many p (pred lo) (Some c) s' k) (at_least lo k prev s)
      else at_least lo k prev s
  | [] => at_least lo k prev s
  end.

(** The backtracking matcher. *)
Fixpoint rmatch (ic : bool) (r : regex) (prev : option ascii) (s : text)
  (k : cont) : option text :=
  match r with
  | REps => k prev s
  | RBound => if is_boundary prev (head s) then k prev s else None
  | RSet neg cs =>
      match s with
      | c :: s' => if in_set ic neg cs c then k (Some c) s' else None
      | [] => None
      end
  | RSeq r1 r2 => rmatch ic r1 prev s (fun p' s' => rmatch ic r2 p' s' k)
  | RAlt r1 r2 => or_else (rmatch ic r1 prev s k) (rmatch ic r2 prev s k)
  | RRep r1 lo hi =>
      (fix loop (hi lo : nat) (prev : option ascii) (s : text) : option text :=
         match hi with
         | 0 => at_least lo k prev s
         | S hi' =>
             or_else
               (rmatch ic r1 prev s (fun p' s' => loop hi' (pred lo) p' s'))
               (at_least lo k prev s)
         end) hi lo prev s
  | RMany neg cs lo => many (in_set ic neg cs) lo prev s k
  end.

(** [pattern.match] at the cursor: the length of the match. *)
Definition match_here (ic : bool) (r : regex) (prev : option ascii)
  (s : text) : option nat :=
  match rmatch ic r prev s (fun _ s' => Some s') with
  | Some s' => Some (length s - length s')
  | None => None
  end.

(** [re.finditer]: the spans of the leftmost non-overlapping matches.
    [skip] characters of the last match remain to be passed over. *)
Fixpoint finditer_from (ic : bool) (r : regex) (prev : option ascii)
  (s : text) (pos skip : nat) : list (nat * nat) :=
  match skip with
  | S n =>
      match s with
      | [] => []
      | c :: s' => finditer_from ic r (Some c) s' (S pos) n
      end
  | 0 =>
      match match_here ic r prev s with
      | Some n =>
          (pos, pos + n) ::
          match s with
          | [] => []
          | c :: s' => finditer_from ic r (Some c) s' (S pos) (pred n)
          end
      | None =>
          match s with
          | [] => []
          | c :: s' => finditer_from ic r (Some c) s' (S pos) 0
          end
      end
  end.

Definition finditer (ic : bool) (r : regex) (s : text) : list (nat * nat) :=
  finditer_from ic r None s 0 0.

(** Pattern syntax. *)
Definition chr (c : ascii) : regex := RSet false [CChar c].
Definition set (cs : list citem) : regex := RSet false cs.
Definition digit : regex := RSet false [CDigit].
Definition opt (r : regex) : regex := RRep r 0 1.
Definition times (n : nat) (r : regex) : regex := RRep r n n.
Definition spaces : regex := RMany false [CSpace] 0.

Fixpoint cat (rs : list regex) : regex :=
  match rs with
  | [] => REps
  | [r] => r
  | r :: rs' => RSeq r (cat rs')
  end.

Fixpoint alt (rs : list regex) : regex :=
  match rs with
  | [] => REps
  | [r] => r
  | r :: rs' => RAlt r (alt rs')
  end.

Definition lit (s : string) : regex := cat (map chr (txt s)).

(** ** What a match looks like

    [last_of prev w] is the character before the cursor once [w] has
    been read. *)
Definition last_of (prev : option ascii) (w : text) : option ascii :=
  foldl (fun _ c => Some c) prev w.

(** The words of [r{lo,hi}], given the words of [r]. *)
Fixpoint reps (L : option ascii -> text -> text -> Prop) (hi lo : nat)
  (prev : option ascii) (w rest : text) : Prop :=
  (lo = 0 /\ w = []) \/
  match hi with
  | 0 => False
  | S hi' =>
      exists w1 w2, w = w1 ++ w2 /\ L prev w1 (w2 ++ rest)
        /\ reps L hi' (pred lo) (last_of prev w1) w2 rest
  end.

(** [lang ic r prev w rest]: [r] can match the word [w] when [prev]
    stands before it and [rest] after it. *)
Fixpoint lang (ic : bool) (r : regex) (prev : option ascii) (w rest : text)
  : Prop :=
  match r with
  | REps => w = []
  | RBound => w = [] /\ is_boundary prev (head rest) = true
  | RSet neg cs => exists c, w = [c] /\ in_set ic neg cs c = true
  | RSeq r1 r2 =>
      exists w1 w2, w = w1 ++ w2 /\ lang ic r1 prev w1 (w2 ++ rest)
        /\ lang ic r2 (last_of prev w1) w2 rest
  | RAlt r1 r2 => lang ic r1 prev w rest \/ lang ic r2 prev w rest
  | RRep r1 lo hi => reps (lang ic r1) hi lo prev w rest
  | RMany neg cs lo =>
      lo <= length w /\ forallb (in_set ic neg cs) w = true
  end.

End Re.

(* ===================================================================== *)
(** * inspector.py *)
(* ===================================================================== *)

Module Inspector.
Import Re.

Definition AZ : citem := CRange "A" "Z".
Definition az : citem := CRange "a" "z".
Definition d09 : citem := CRange "0" "9".
Definition either (u l : ascii) : regex := set [CChar u; CChar l].
Definition dquote : ascii := ascii_of_nat 34.

(** [r'\b(?:\d{4}[-\s]?){3}\d{4}\b'] *)
Definition credit_card : regex :=
  cat [RBound;
       times 3 (RSeq (times 4 digit) (opt (set [CChar "-"; CSpace])));
       times 4 digit;
       RBound].

(** The parts of the credit-card pattern: [\d{4}], [[-\s]?] and
    [\d{4}[-\s]?]. *)
Definition block : regex := times 4 digit.
Definition sep : regex := opt (set [CChar "-"; CSpace]).
Definition group : regex := RSeq block sep.

(** [r'\b\d{3}-\d{2}-\d{4}\b'] *)
Definition ssn : regex :=
  cat [RBound; times 3 digit; chr "-"; times 2 digit; chr "-";
       times 4 digit; RBound].

(** [(?:[Nn]umber|[Nn]o\.?|#)?] *)
Definition number_label : regex :=
  opt (alt [RSeq (either "N" "n") (lit "umber");
            cat [either "N" "n"; chr "o"; opt (chr ".")];
            chr "#"]).

(** [r'\b(?:[Aa]ccount\s*(?:[Nn]umber|[Nn]o\.?|#)?|[Aa][Cc][Cc][Tt]\s*#?)\s*:?\s*(\d{8,17})\b'] *)
Definition account_number : regex :=
  cat [RBound;
       alt [cat [either "A" "a"; lit "ccount"; spaces; number_label];
            cat [either "A" "a"; either "C" "c"; either "C" "c";
                 either "T" "t"; spaces; opt (chr "#")]];
       spaces; opt (chr ":"); spaces;
       RRep digit 8 17;
       RBound].

(** [r'\b(?:[Rr]outing\s*(?:[Nn]umber|[Nn]o\.?|#)?|[Rr][Tt][Gg]\s*#?|[Rr]oute\s*:?)\s*:?\s*(\d{9})\b'] *)
Definition routing_number : regex :=
  cat [RBound;
       alt [cat [either "R" "r"; lit "outing"; spaces; number_label];
            cat [either "R" "r"; either "T" "t"; either "G" "g"; spaces;
                 opt (chr "#")];
            cat [either "R" "r"; lit "oute"; spaces; opt (chr ":")]];
       spaces; opt (chr ":"); spaces;
       times 9 digit;
       RBound].

(** [r'\b[A-Za-z0-9._%+-]+@[A-Za-z0-9.-]+\.[A-Z|a-z]{2,}\b'] *)
Definition email : regex :=
  cat [RBound;
       RMany false [AZ; az; d09; CChar "."; CChar "_"; CChar "%";
                    CChar "+"; CChar "-"] 1;
       chr "@";
       RMany false [AZ; az; d09; CChar "."; CChar "-"] 1;
       chr ".";
       RMany false [AZ; CChar "|"; az] 2;
       RBound].

(** [r'\b(?:[Pp]assword|[Pp]ass|[Pp]wd)\s*:?\s*([^\s]+)\b'] *)
Definition password : regex :=
  cat [RBound;
       alt [RSeq (either "P" "p") (lit "assword");
            RSeq (either "P" "p") (lit "ass");
            RSeq (either "P" "p") (lit "wd")];
       spaces; opt (chr ":"); spaces;
       RMany true [CSpace] 1;
       RBound].

(** [r'\b(?:api[_-]?key|apikey|api[_-]?secret)\s*[:=]\s*[\'"]?([A-Za-z0-9_\-]{20,})[\'"]?\b'] *)
Definition api_key : regex :=
  cat [RBound;
       alt [cat [lit "api"; opt (set [CChar "_"; CChar "-"]); lit "key"];
            lit "apikey";
            cat [lit "api"; opt (set [CChar "_"; CChar "-"]); lit "secret"]];
       spaces; set [CChar ":"; CChar "="]; spaces;
       opt (set [CChar "'"; CChar dquote]);
       RMany false [AZ; az; d09; CChar "_"; CChar "-"] 20;
       opt (set [CChar "'"; CChar dquote]);
       RBound].

(** The pattern table, in the insertion order of the dict. *)
Definition PATTERNS : list (string * regex) :=
  [("credit_card", credit_card);
   ("ssn", ssn);
   ("account_number", account_number);
   ("routing_number", routing_number);
   ("email", email);
   ("password", password);
   ("api_key", api_key)]%string.

(** A finding: the dict with keys [type], [value], [position],
    [severity]. *)
Record finding : Type := Finding {
  f_type : string;
  f_value : text;
  f_position : nat * nat;
  f_severity : string
}.

Definition _get_severity (pattern_type : string) : string :=
  let high_severity := ["credit_card"; "ssn"; "password"; "api_key"]%string in
  let medium_severity := ["account_number"; "routing_number"]%string in
  if bool_decide (pattern_type ∈ high_severity) then "HIGH"
  else if bool_decide (pattern_type ∈ medium_severity) then "MEDIUM"
  else "LOW".

(** [text[start:end]] for [0 <= start], [0 <= end]. *)
Definition slice (s : text) (start stop : nat) : text :=
  take (stop - start) (drop start s).

(** The findings of one pattern: the inner loop of [inspect_text]. *)
Definition findings_of (t : text) (p : string * regex) : list finding :=
  map (fun span : nat * nat =>
         {| f_type := p.1;
            f_value := slice t span.1 span.2;
            f_position := span;
            f_severity := _get_severity p.1 |})
      (finditer true p.2 t).

Definition inspect_text (t : text) : list finding :=
  concat (map (findings_of t) PATTERNS).

(** ** Card numbers, as the credit-card claim speaks of them *)

(** A separator of the blocks of a card number: [[-\s]]. *)
Definition is_sep (c : ascii) : bool := (code c =? 45)%N || is_space c.

(** Four digits at the head of [w]: what follows them. *)
Definition take_block (w : text) : option text :=
  match w with
  | a :: b :: c :: d :: w' =>
      if is_digit a && is_digit b && is_digit c && is_digit d
      then Some w' else None
  | _ => None
  end.

(** At most one separator at the head of [w]: what follows it. *)
Definition skip_sep (w : text) : text :=
  match w with
  | c :: w' => if is_sep c then w' else w
  | [] => []
  end.

(** Sixteen digits in four blocks of four, with at most one separator
    between two blocks. *)
Definition is_card16 (w : text) : bool :=
  match take_block w with
  | Some w1 =>
      match take_block (skip_sep w1) with
      | Some w2 =>
          match take_block (skip_sep w2) with
          | Some w3 =>
              match take_block (skip_sep w3) with
              | Some [] => true
              | _ => false
              end
          | None => false
          end
      | None => false
      end
  | None => false
  end.

(** A run of exactly [n] digits. *)
Definition is_digit_run (n : nat) (w : text) : bool :=
  (length w =? n) && forallb is_digit w.

(** The text before a number leaves it standing alone: it does not end
    in a word character, nor in a digit followed by one separator. *)
Definition free_before (pre : text) : bool :=
  match reverse pre with
  | [] => true
  | c :: before =>
      negb (is_word c)
      && negb (is_sep c && match before with
                           | d :: _ => is_digit d
                           | [] => false
                           end)
  end.

(** The text after a number leaves it standing alone: it does not
    start with a word character. *)
Definition free_after (post : text) : bool :=
  match post with
  | [] => true
  | c :: _ => negb (is_word c)
  end.

(** Digits and separators only, every separator right after a digit;
    [d] tells whether a digit stands before [w]. *)
Fixpoint digits_sep (d : bool) (w : text) : bool :=
  match w with
  | [] => true
  | c :: w' =>
      if is_digit c then digits_sep true w'
      else is_sep c && d && digits_sep false w'
  end.

End Inspector.

(* ===================================================================== *)
(** * phantom_redactor.py *)
(* ===================================================================== *)

Module PhantomRedactor.
Import Inspector.

Definition REDACTION_MARKERS : gmap string text :=
  list_to_map
    [("credit_card", txt "[REDACTED-CREDIT-CARD]");
     ("ssn", txt "[REDACTED-SSN]");
     ("account_number", txt "[REDACTED-ACCOUNT]");
     ("routing_number", txt "[REDACTED-ROUTING]");
     ("email", txt "[REDACTED-EMAIL]");
     ("password", txt "[REDACTED-PASSWORD]");
     ("api_key", txt "[REDACTED-API-KEY]")]%string.

(** An entry of the redaction log: the dict with keys [type],
    [original], [redacted], [position], [severity]. *)
Record redaction : Type := Redaction {
  r_type : string;
  r_original : text;
  r_redacted : text;
  r_position : nat * nat;
  r_severity : string
}.

(** [sorted(findings, key=lambda x: x['position'][0], reverse=True)]:
    a stable sort, so findings with the same start keep their order. *)
Fixpoint insert_desc (x : finding) (l : list finding) : list finding :=
  match l with
  | [] => [x]
  | y :: l' =>
      if (f_position x).1 <? (f_position y).1
      then y :: insert_desc x l'
      else x :: y :: l'
  end.

Definition sorted_desc (l : list finding) : list finding :=
  foldr insert_desc [] l.

(** The mask or marker that replaces one finding. *)
Definition redacted_value (preserve_format : bool) (f : finding) : text :=
  let original_value := f_value f in
  if preserve_format then
    if 4 <? length original_value then
      let visible_chars := 2 in
      take visible_chars original_value
        ++ replicate (length original_value - visible_chars) "*"%char
    else replicate (length original_value) "*"%char
  else default (txt "[REDACTED]") (REDACTION_MARKERS !! f_type f).

(** One turn of the loop of [redact_text]. *)
Definition redact_one (preserve_format : bool)
  (acc : text * list redaction) (f : finding) : text * list redaction :=
  let '(redacted_text, redaction_log) := acc in
  let '(start, stop) := f_position f in
  let v := redacted_value preserve_format f in
  (take start redacted_text ++ v ++ drop stop redacted_text,
   redaction_log ++ [{| r_type := f_type f;
                        r_original := f_value f;
                        r_redacted := v;
                        r_position := f_position f;
                        r_severity := f_severity f |}]).

(** The loop of [redact_text] over findings already sorted. *)
Definition redact_findings (preserve_format : bool) (t : text)
  (fs : list finding) : text * list redaction :=
  foldl (redact_one preserve_format) (t, []) fs.

Definition redact_text (t : text) (preserve_format : bool)
  : text * list redaction :=
  let findings := inspect_text t in
  let findings_sorted := sorted_desc findings in
  redact_findings preserve_format t findings_sorted.

(** The summary dict. *)
Record summary : Type := Summary {
  total_redactions : nat;
  by_type : gmap string nat;
  by_severity : gmap string nat
}.

(** One turn of the loop of [_create_summary];
    [summary['by_severity'][severity] += 1] raises [KeyError] when the
    key is missing. *)
Definition count_redaction (s : summary) (r : redaction) : option summary :=
  let r_ty := r_type r in
  let by_type' := <[r_ty := default 0 (by_type s !! r_ty) + 1]> (by_type s) in
  let severity := r_severity r in
  match by_severity s !! severity with
  | Some n =>
      Some {| total_redactions := total_redactions s;
              by_type := by_type';
              by_severity := <[severity := n + 1]> (by_severity s) |}
  | None => None
  end.

Fixpoint count_redactions (s : summary) (l : list redaction) : option summary :=
  match l with
  | [] => Some s
  | r :: l' =>
      match count_redaction s r with
      | Some s' => count_redactions s' l'
      | None => None
      end
  end.

Definition _create_summary (redaction_log : list redaction) : option summary :=
  count_redactions
    {| total_redactions := length redaction_log;
       by_type := ∅;
       by_severity := <["HIGH" := 0]> (<["MEDIUM" := 0]> (<["LOW" := 0]> ∅)) |}
    redaction_log.

(** The dict returned by [redact_document]. *)
Record document : Type := Document {
  d_original : text;
  d_redacted : text;
  d_redaction_count : nat;
  d_redaction_log : list redaction;
  d_summary : summary
}.

Definition redact_document (content : text) : option document :=
  let '(redacted_text, redaction_log) := redact_text content true in
  match _create_summary redaction_log with
  | Some s =>
      Some {| d_original := content;
              d_redacted := redacted_text;
              d_redaction_count := length redaction_log;
              d_redaction_log := redaction_log;
              d_summary := s |}
  | None => None
  end.

Definition create_safe_version (content : text) : text :=
  (redact_text content false).1.

(** The log entry made for a finding. *)
Definition record_of (preserve_format : bool) (f : finding) : redaction :=
  {| r_type := f_type f;
     r_original := f_value f;
     r_redacted := redacted_value preserve_format f;
     r_position := f_position f;
     r_severity := f_severity f |}.

(** The three severities. *)
Definition SEVERITIES : list string := ["HIGH"; "MEDIUM"; "LOW"]%string.

(** The input of the test [test_redactor_masking] and the entry it
    leaves in the log. *)
Definition masking_text : text := txt "Password: MySecret123".

Definition masking_entry : redaction :=
  {| r_type := "password";
     r_original := txt "Password: MySecret123";
     r_redacted := txt "Pa*******************";
     r_position := (0, 21);
     r_severity := "HIGH" |}.

End PhantomRedactor.

(* ===================================================================== *)
(** * archestra.py *)
(* ===================================================================== *)

Module Archestra.
Import Inspector PhantomRedactor.

(** The values stored in the [data] dict of an event or a step. *)
Inductive pyval : Type :=
| VInt (n : Z)
| VFloat (t : Z)
| VStr (s : text)
| VSummary (s : summary)
| VLog (l : list redaction).

(** An event of a trace: keys [type], [description], [data],
    [timestamp]. *)
Record event : Type := Event {
  e_type : string;
  e_description : string;
  e_data : gmap string pyval;
  e_timestamp : Z
}.

(** A trace: keys [trace_id], [start_time], [events], [status], and,
    once completed, [end_time] and [duration]. *)
Record trace : Type := Trace {
  trace_id : string;
  start_time : Z;
  events : list event;
  status : string;
  end_time : option Z;
  duration : option Z
}.

(** The interceptor object; [clock] counts the readings of
    [time.time()] made so far. *)
Record interceptor : Type := Interceptor {
  trace_log : list trace;
  interception_count : nat;
  clock : nat
}.

(** [ArchestraInterceptor.__init__] *)
Definition init : interceptor :=
  {| trace_log := []; interception_count := 0; clock := 0 |}.

(** A step of the dict returned by [process_with_trace]. *)
Record step : Type := Step {
  s_step : nat;
  s_name : string;
  s_description : string;
  s_status : string;
  s_data : gmap string pyval;
  s_timestamp : Z
}.

(** The dict returned by [process_with_trace]. *)
Record result : Type := Result {
  res_trace_id : string;
  original_content : text;
  redacted_content : text;
  safe_data : text;
  redaction_summary : summary;
  redaction_details : list redaction;
  trace_steps : list step;
  interception_successful : bool
}.

(** The dict returned by [get_statistics]. *)
Record statistics : Type := Statistics {
  total_interceptions : nat;
  total_redactions : Z;
  average_duration : Q;
  traces_completed : nat
}.

(** Methods run on the interceptor and may raise: the state is kept
    when they do. *)
Definition M (A : Type) : Type := interceptor -> option A * interceptor.

Definition ret {A} (a : A) : M A := fun st => (Some a, st).

Definition bind {A B} (m : M A) (f : A -> M B) : M B :=
  fun st =>
    match m st with
    | (Some a, st') => f a st'
    | (None, st') => (None, st')
    end.

Definition lift {A} (o : option A) : M A := fun st => (o, st).

Notation "x <- m ;; k" := (bind m (fun x => k))
  (at level 100, m at next level, right associativity).
Notation "m ;;; k" := (bind m (fun _ => k))
  (at level 100, right associativity).

(** [f"{n:04d}"]: decimal, padded with zeros on the left to four
    characters. *)
Definition zfill (width : nat) (d : string) : string :=
  String.append
    (string_of_list_ascii (replicate (width - String.length d) "0"%char)) d.

Definition fmt_04d (n : nat) : string :=
  zfill 4 (NilEmpty.string_of_uint (Nat.to_uint n)).

Definition make_trace_id (n : nat) : string :=
  String.append "TRACE-" (fmt_04d n).

(** The loop [for trace in self.trace_log: if trace['trace_id'] ==
    trace_id: ...; break]: [None] when no trace has that id. *)
Fixpoint update_first (id : string) (f : trace -> trace) (l : list trace)
  : option (list trace) :=
  match l with
  | [] => None
  | t :: l' =>
      if String.eqb (trace_id t) id then Some (f t :: l')
      else option_map (cons t) (update_first id f l')
  end.

(** [content[:100] + '...' if len(content) > 100 else content] *)
Definition preview (content : text) : text :=
  if 100 <? length content then take 100 content ++ txt "..." else content.

(** [l[start:]] for any integer [start]. *)
Definition slice_from {A} (l : list A) (start : Z) : list A :=
  let n := Z.of_nat (length l) in
  let start' :=
    if (start <? 0)%Z then Z.max (start + n) 0 else Z.min start n in
  drop (Z.to_nat start') l.

(** A value used as a number. *)
Definition as_number (v : pyval) : option Z :=
  match v with
  | VInt n => Some n
  | VFloat t => Some t
  | _ => None
  end.

(** [args[0] if args else kwargs.get('content', '')] *)
Definition content_of (args : list text) (kwargs : gmap string text) : text :=
  match args with
  | c :: _ => c
  | [] => default [] (kwargs !! "content")
  end.

(** The arguments of the call of the wrapped function:
    [(safe_content,) + args[1:]] when there are positional arguments,
    [kwargs['content'] = safe_content] otherwise. *)
Definition substituted (safe_content : text) (args : list text)
  (kwargs : gmap string text) : list text * gmap string text :=
  match args with
  | _ :: rest => (safe_content :: rest, kwargs)
  | [] => ([], <["content" := safe_content]> kwargs)
  end.

Section Clock.

(** [now n] is the [n]-th reading of [time.time()]. *)
Variable now : nat -> Z.

Definition time_time : M Z :=
  fun st =>
    (Some (now (clock st)),
     {| trace_log := trace_log st;
        interception_count := interception_count st;
        clock := S (clock st) |}).

Definition _start_trace : M string :=
  fun st =>
    let count := interception_count st + 1 in
    let id := make_trace_id count in
    (Some id,
     {| trace_log :=
          trace_log st ++
            [{| trace_id := id;
                start_time := now (clock st);
                events := [];
                status := "in_progress";
                end_time := None;
                duration := None |}];
        interception_count := count;
        clock := S (clock st) |}).

Definition add_event (e : event) (t : trace) : trace :=
  {| trace_id := trace_id t;
     start_time := start_time t;
     events := events t ++ [e];
     status := status t;
     end_time := end_time t;
     duration := duration t |}.

Definition _log_trace (id event_type description : string)
  (data : gmap string pyval) : M unit :=
  fun st =>
    let e := {| e_type := event_type;
                e_description := description;
                e_data := data;
                e_timestamp := now (clock st) |} in
    match update_first id (add_event e) (trace_log st) with
    | Some l =>
        (Some tt,
         {| trace_log := l;
            interception_count := interception_count st;
            clock := S (clock st) |})
    | None => (Some tt, st)
    end.

Definition complete (t_end : Z) (t : trace) : trace :=
  {| trace_id := trace_id t;
     start_time := start_time t;
     events := events t;
     status := "completed";
     end_time := Some t_end;
     duration := Some (t_end - start_time t)%Z |}.

Definition _complete_trace (id : string) : M unit :=
  fun st =>
    match update_first id (complete (now (clock st))) (trace_log st) with
    | Some l =>
        (Some tt,
         {| trace_log := l;
            interception_count := interception_count st;
            clock := S (clock st) |})
    | None => (Some tt, st)
    end.

Definition process_with_trace (content : text) : M result :=
  id <- _start_trace ;;
  (* Step 1: Agent reads *)
  let data1 : gmap string pyval :=
    <["content_preview" := VStr (preview content)]>
      (<["length" := VInt (Z.of_nat (length content))]> ∅) in
  ts1 <- time_time ;;
  let step1 :=
    {| s_step := 1; s_name := "Agent Reads Document";
       s_description := "Agent attempts to read the uploaded document";
       s_status := "completed"; s_data := data1; s_timestamp := ts1 |} in
  _log_trace id "AGENT_READ" (s_description step1) (s_data step1) ;;;
  (* Step 2: Archestra intercepts *)
  let data2 : gmap string pyval :=
    <["action" := VStr (txt "INTERCEPT")]>
      (<["reason" := VStr (txt "Automatic security scan triggered")]> ∅) in
  ts2 <- time_time ;;
  let step2 :=
    {| s_step := 2; s_name := "Archestra Intercepts";
       s_description := "Archestra middleware intercepts the read operation";
       s_status := "completed"; s_data := data2; s_timestamp := ts2 |} in
  _log_trace id "ARCHESTRA_INTERCEPT" (s_description step2) (s_data step2) ;;;
  (* Step 3: Phantom redacts *)
  redaction_result <- lift (redact_document content) ;;
  let data3 : gmap string pyval :=
    <["redactions_made" :=
        VInt (Z.of_nat (d_redaction_count redaction_result))]>
      (<["summary" := VSummary (d_summary redaction_result)]>
         (<["redaction_log" := VLog (d_redaction_log redaction_result)]> ∅)) in
  ts3 <- time_time ;;
  let step3 :=
    {| s_step := 3; s_name := "Phantom Redacts";
       s_description := "Phantom automatically redacts sensitive information";
       s_status := "completed"; s_data := data3; s_timestamp := ts3 |} in
  _log_trace id "PHANTOM_REDACT" (s_description step3) (s_data step3) ;;;
  (* Step 4: Agent receives safe data *)
  let data4 : gmap string pyval :=
    <["safe_content_preview" := VStr (preview (d_redacted redaction_result))]>
      (<["length" :=
           VInt (Z.of_nat (length (d_redacted redaction_result)))]> ∅) in
  ts4 <- time_time ;;
  let step4 :=
    {| s_step := 4; s_name := "Agent Sees Safe Data";
       s_description := "Agent receives only the sanitized, safe version";
       s_status := "completed"; s_data := data4; s_timestamp := ts4 |} in
  _log_trace id "SAFE_DATA_DELIVERED" (s_description step4) (s_data step4) ;;;
  _complete_trace id ;;;
  ret {| res_trace_id := id;
         original_content := content;
         redacted_content := d_redacted redaction_result;
         safe_data := d_redacted redaction_result;
         redaction_summary := d_summary redaction_result;
         redaction_details := d_redaction_log redaction_result;
         trace_steps := [step1; step2; step3; step4];
         interception_successful := true |}.

(** The wrapper built by the decorator [intercept]. The wrapped
    function takes the positional and the keyword arguments and returns
    its result, or raises. *)
Definition intercept {R : Type}
  (func : list text -> gmap string text -> option R)
  (args : list text) (kwargs : gmap string text) : M R :=
  id <- _start_trace ;;
  let content := content_of args kwargs in
  ts1 <- time_time ;;
  _log_trace id "AGENT_READ" "Agent attempting to read document"
    (<["content_length" := VInt (Z.of_nat (length content))]>
       (<["timestamp" := VFloat ts1]> ∅)) ;;;
  count <- (fun st => (Some (interception_count st), st)) ;;
  ts2 <- time_time ;;
  _log_trace id "ARCHESTRA_INTERCEPT" "Archestra intercepted the read operation"
    (<["interception_count" := VInt (Z.of_nat count)]>
       (<["timestamp" := VFloat ts2]> ∅)) ;;;
  redaction_result <- lift (redact_document content) ;;
  ts3 <- time_time ;;
  _log_trace id "PHANTOM_REDACT" "Phantom redacted sensitive data"
    (<["redactions" := VInt (Z.of_nat (d_redaction_count redaction_result))]>
       (<["summary" := VSummary (d_summary redaction_result)]>
          (<["timestamp" := VFloat ts3]> ∅))) ;;;
  let safe_content := d_redacted redaction_result in
  ts4 <- time_time ;;
  _log_trace id "SAFE_DATA_DELIVERED" "Agent received sanitized data"
    (<["safe_content_length" := VInt (Z.of_nat (length safe_content))]>
       (<["timestamp" := VFloat ts4]> ∅)) ;;;
  let call := substituted safe_content args kwargs in
  r <- lift (func call.1 call.2) ;;
  _complete_trace id ;;;
  ret r.

End Clock.

Definition get_trace_history (st : interceptor) (limit : Z) : list trace :=
  slice_from (trace_log st) (- limit).

Definition get_trace_by_id (st : interceptor) (id : string) : option trace :=
  find (fun t => String.eqb (trace_id t) id) (trace_log st).

(** [total_redactions += event['data'].get('redactions', 0)] over the
    events of one trace. *)
Fixpoint sum_redactions (total : Z) (es : list event) : option Z :=
  match es with
  | [] => Some total
  | e :: es' =>
      if String.eqb (e_type e) "PHANTOM_REDACT" then
        match as_number (default (VInt 0) (e_data e !! "redactions")) with
        | Some n => sum_redactions (total + n) es'
        | None => None
        end
      else sum_redactions total es'
  end.

(** The loop of [get_statistics] over the traces: the running
    [(total_redactions, total_duration)]. *)
Fixpoint sum_traces (acc : Z * Z) (l : list trace) : option (Z * Z) :=
  match l with
  | [] => Some acc
  | t :: l' =>
      if String.eqb (status t) "completed" then
        match sum_redactions acc.1 (events t) with
        | Some total => sum_traces (total, (acc.2 + default 0 (duration t))%Z) l'
        | None => None
        end
      else sum_traces acc l'
  end.

Definition is_completed (t : trace) : bool := String.eqb (status t) "completed".

Definition get_statistics (st : interceptor) : option statistics :=
  match sum_traces (0, 0)%Z (trace_log st) with
  | Some (total_redactions, total_duration) =>
      Some {| total_interceptions := interception_count st;
              total_redactions := total_redactions;
              average_duration :=
                match trace_log st with
                | [] => 0%Q
                | _ :: _ =>
                    Qmake total_duration (Pos.of_nat (length (trace_log st)))
                end;
              traces_completed := length (filter is_completed (trace_log st)) |}
  | None => None
  end.

(** [process_with_trace] called on each content in turn. *)
Fixpoint process_all (now : nat -> Z) (contents : list text) : M (list result) :=
  match contents with
  | [] => ret []
  | c :: cs =>
      r <- process_with_trace now c ;;
      rs <- process_all now cs ;;
      ret (r :: rs)
  end.

(** The ids in the log are those allocated so far, in order. *)
Definition wf (st : interceptor) : Prop :=
  map trace_id (trace_log st)
  = map make_trace_id (seq 1 (interception_count st)).

(** The clock never runs backwards. *)
Definition monotone (now : nat -> Z) : Prop :=
  forall i j, i <= j -> (now i <= now j)%Z.

(** The call the wrapper of [intercept] makes of the wrapped function,
    for the arguments it was itself called with. *)
Definition call_of (args : list text) (kwargs : gmap string text)
  : list text * gmap string text :=
  substituted (redact_text (content_of args kwargs) true).1 args kwargs.

(** A wrapped function that returns the arguments it is called with. *)
Definition spy (args : list text) (kwargs : gmap string text)
  : option (list text * gmap string text) :=
  Some (args, kwargs).

(** One interception of a document that holds a password, on a fresh
    interceptor whose clock ticks once per reading. *)
Definition password_run : option result * interceptor :=
  process_with_trace Z.of_nat (txt "Password: MySecret123") init.

(** A clock that is set back by an hour after its third reading:
    [time.time()] follows the system clock, which can be adjusted. *)
Definition clock_set_back (n : nat) : Z :=
  if n <? 3 then (3600 + Z.of_nat n)%Z else Z.of_nat n.

(** A wrapped function that raises. *)
Definition raising (args : list text) (kwargs : gmap string text)
  : option unit :=
  None.

(** The trace that [password_run] leaves in the log. *)
Definition password_trace : trace :=
  hd {| trace_id := ""; start_time := 0; events := []; status := "";
        end_time := None; duration := None |}
     (trace_log password_run.2).

(** The event types of a completed interception. *)
Definition PHASES : list string :=
  ["AGENT_READ"; "ARCHESTRA_INTERCEPT"; "PHANTOM_REDACT";
   "SAFE_DATA_DELIVERED"]%string.

End Archestra.

(* ===================================================================== *)
(** * The rest of the three modules, and their callers *)
(* ===================================================================== *)

(** ** Bounds on the length of a match *)

Module ReBounds.
Import Re.

(** The shortest word a pattern can match. *)
Fixpoint min_len (r : regex) : nat :=
  match r with
  | REps | RBound => 0
  | RSet _ _ => 1
  | RSeq r1 r2 => min_len r1 + min_len r2
  | RAlt r1 r2 => Nat.min (min_len r1) (min_len r2)
  | RRep r1 lo _ => lo * min_len r1
  | RMany _ _ lo => lo
  end.

(** The longest word a pattern can match, when there is one. *)
Fixpoint max_len (r : regex) : option nat :=
  match r with
  | REps | RBound => Some 0
  | RSet _ _ => Some 1
  | RSeq r1 r2 =>
      match max_len r1, max_len r2 with
      | Some a, Some b => Some (a + b)
      | _, _ => None
      end
  | RAlt r1 r2 =>
      match max_len r1, max_len r2 with
      | Some a, Some b => Some (Nat.max a b)
      | _, _ => None
      end
  | RRep r1 _ hi =>
      match max_len r1 with
      | Some a => Some (hi * a)
      | None => None
      end
  | RMany _ _ _ => None
  end.

End ReBounds.

(** ** inspector.py: [get_summary] *)

Module InspectorSummary.
Import Inspector.

(** The loop of [get_summary]:
    [summary[finding_type] = summary.get(finding_type, 0) + 1]. *)
Fixpoint count_findings (summary : gmap string nat) (findings : list finding)
  : gmap string nat :=
  match findings with
  | [] => summary
  | f :: fs =>
      let finding_type := f_type f in
      count_findings
        (<[finding_type := default 0 (summary !! finding_type) + 1]> summary) fs
  end.

Definition get_summary (findings : list finding) : gmap string nat :=
  count_findings ∅ findings.

(** The number of findings of one type. *)
Definition count_type (name : string) (findings : list finding) : nat :=
  length (List.filter (fun f => String.eqb (f_type f) name) findings).

(** A text with two card numbers, and its two findings. *)
Definition two_cards : text := txt "1111 2222 3333 4444 5555 6666 7777 8888".

Definition first_card : finding :=
  {| f_type := "credit_card"; f_value := txt "1111 2222 3333 4444";
     f_position := (0, 19); f_severity := "HIGH" |}.

Definition second_card : finding :=
  {| f_type := "credit_card"; f_value := txt "5555 6666 7777 8888";
     f_position := (20, 39); f_severity := "HIGH" |}.

End InspectorSummary.

(** ** phantom_redactor.py: [get_redaction_report], and the text that
    [redact_text] builds *)

Module RedactorReport.
Import Inspector PhantomRedactor.

(** An entry of the [details] of a report. *)
Record detail : Type := Detail {
  dt_type : string;
  dt_severity : string;
  dt_preview : text;
  dt_action : string
}.

(** The dict returned by [get_redaction_report]. *)
Record report : Type := Report {
  document_length : nat;
  redacted_length : nat;
  total_findings : nat;
  rp_summary : summary;
  details : list detail
}.

(** [redaction['original'][:10] + '...' if len(redaction['original']) > 10
    else redaction['original']] *)
Definition preview10 (original : text) : text :=
  if 10 <? length original then take 10 original ++ txt "..." else original.

Definition get_redaction_report (content : text) : option report :=
  match redact_document content with
  | Some result =>
      Some {| document_length := length content;
              redacted_length := length (d_redacted result);
              total_findings := d_redaction_count result;
              rp_summary := d_summary result;
              details :=
                map (fun redaction =>
                       {| dt_type := r_type redaction;
                          dt_severity := r_severity redaction;
                          dt_preview := preview10 (r_original redaction);
                          dt_action := "REDACTED" |})
                    (d_redaction_log result) |}
  | None => None
  end.

(** The text part of one turn of the loop of [redact_text]. *)
Definition rewrite_one (preserve_format : bool) (t : text) (f : finding)
  : text :=
  take (f_position f).1 t ++ redacted_value preserve_format f
    ++ drop (f_position f).2 t.

(** A finding whose span lies in a text of length [n] and is as long as
    its value. *)
Definition spans_in (n : nat) (f : finding) : Prop :=
  (f_position f).1 <= (f_position f).2 /\ (f_position f).2 <= n
  /\ length (f_value f) = (f_position f).2 - (f_position f).1.

(** [i] lies in the span of [f]. *)
Definition covers (f : finding) (i : nat) : Prop :=
  (f_position f).1 <= i < (f_position f).2.

(** Findings in the order [redact_text] rewrites them, none running
    into the one rewritten before it: each ends where the previous one
    starts, or earlier, and the first ends in the text. *)
Fixpoint apart (bound : nat) (fs : list finding) : bool :=
  match fs with
  | [] => true
  | f :: fs' =>
      ((f_position f).1 <=? (f_position f).2)
      && ((f_position f).2 <=? bound)
      && apart (f_position f).1 fs'
  end.

(** The same text written from left to right: the text from [cut] to
    [stop], with the findings, in ascending order, each replaced by its
    redacted value and the text between two findings copied. *)
Fixpoint splice_to (preserve_format : bool) (t : text) (cut : nat)
  (fs : list finding) (stop : nat) : text :=
  match fs with
  | [] => slice t cut stop
  | f :: fs' =>
      slice t cut (f_position f).1 ++ redacted_value preserve_format f
        ++ splice_to preserve_format t (f_position f).2 fs' stop
  end.

Definition splice (preserve_format : bool) (t : text) (fs : list finding)
  : text :=
  splice_to preserve_format t 0 fs (length t).

(** A text with four findings that do not overlap (the input of the
    test [test_inspector_detection]), and a text with a finding after
    two other characters. *)
Definition detection_text : text :=
  txt "Account: 123456789, Route: 987654321, Card: 1111-2222-3333-4444, Pass: Secret123".

Definition greeting_text : text := txt "ok Password: MySecret123".

(** The summary of the log that holds [masking_entry] alone. *)
Definition masking_summary : summary :=
  {| total_redactions := 1;
     by_type := <["password" := 1]> ∅;
     by_severity := <["HIGH" := 1]> (<["MEDIUM" := 0]> (<["LOW" := 0]> ∅)) |}.

(** The finding behind [masking_entry]. *)
Definition masking_finding : finding :=
  {| f_type := "password";
     f_value := txt "Password: MySecret123";
     f_position := (0, 21);
     f_severity := "HIGH" |}.

End RedactorReport.

(** ** breach_checker.py: [batch_check] *)

Module BreachChecker.

(** An entry of the list returned by [batch_check]. *)
Record entry : Type := Entry {
  password : text;
  is_breached : bool;
  breach_count : Z;
  error : option text
}.

(** The dictionary returned by [analyze_password_strength]. *)
Record analysis : Type := Analysis {
  password_length : nat;
  a_is_breached : bool;
  a_breach_count : Z;
  a_error : option text;
  risk_level : string;
  recommendation : string
}.

(** [pwd[:3] + '*' * (len(pwd) - 3)]; a string repeated a negative
    number of times is empty. *)
Definition mask3 (pwd : text) : text :=
  take 3 pwd ++ replicate (length pwd - 3) "*"%char.

Section Network.

(** [check_password n pwd] is the answer of the [n]-th call of
    [check_password], which asks the network. *)
Variable check_password : nat -> text -> bool * Z * option text.

(** The loop of [batch_check], [calls] calls having been made. *)
Fixpoint batch_check_from (calls : nat) (passwords : list text) : list entry :=
  match passwords with
  | [] => []
  | pwd :: rest =>
      let '(breached, count, err) := check_password calls pwd in
      {| password := mask3 pwd;
         is_breached := breached;
         breach_count := count;
         error := err |}
      :: batch_check_from (S calls) rest
  end.

Definition batch_check (passwords : list text) : list entry :=
  batch_check_from 0 passwords.

(** [analyze_password_strength], as the call number [calls] of
    [check_password]. *)
Definition analyze_password_strength (calls : nat) (pwd : text) : analysis :=
  let '(breached, count, err) := check_password calls pwd in
  let '(risk, advice) :=
    if breached then
      if (100000 <? count)%Z then
        ("CRITICAL",
         "This password has been seen in over 100k breaches. Change immediately!")
      else if (10000 <? count)%Z then
        ("HIGH",
         "This password has been breached many times. Change it soon.")
      else
        ("MEDIUM",
         "This password has been found in breaches. Consider changing it.")
    else
      ("LOW", "No breaches found for this password.")
  in
  {| password_length := length pwd;
     a_is_breached := breached;
     a_breach_count := count;
     a_error := err;
     risk_level := risk;
     recommendation := advice |}.

End Network.

End BreachChecker.

(* ===================================================================== *)
(** * Facts about the matcher *)
(* ===================================================================== *)

Module ReFacts.
Import Re.

Lemma or_else_None_r a : or_else a None = a.
Proof. by destruct a. Qed.

Lemma or_else_Some a b x :
  or_else a b = Some x -> a = Some x \/ (a = None /\ b = Some x).
Proof. destruct a; simpl; intros H; [left | right]; auto. Qed.

Lemma at_least_Some lo k prev s x :
  at_least lo k prev s = Some x -> lo = 0 /\ k prev s = Some x.
Proof. by destruct lo. Qed.

Lemma last_of_app prev w1 w2 :
  last_of prev (w1 ++ w2) = last_of (last_of prev w1) w2.
Proof. apply foldl_app. Qed.

Lemma last_of_snoc prev w c : last_of prev (w ++ [c]) = Some c.
Proof. by rewrite last_of_app. Qed.

(** The two equations of a bounded repetition. *)
Lemma rmatch_rep_0 ic r lo prev s k :
  rmatch ic (RRep r lo 0) prev s k = at_least lo k prev s.
Proof. reflexivity. Qed.

Lemma rmatch_rep_S ic r lo hi prev s k :
  rmatch ic (RRep r lo (S hi)) prev s k
  = or_else
      (rmatch ic r prev s (fun p' s' => rmatch ic (RRep r (pred lo) hi) p' s' k))
      (at_least lo k prev s).
Proof. reflexivity. Qed.

(** ** Soundness: whatever the matcher accepts is a word of the
    pattern *)

Lemma many_sound p s : forall lo prev k x,
  many p lo prev s k = Some x ->
  exists w s', s = w ++ s' /\ lo <= length w /\ forallb p w = true
    /\ k (last_of prev w) s' = Some x.
Proof.
  induction s as [|c s IH]; intros lo prev k x H; simpl in H.
  - apply at_least_Some in H as [-> H]. by exists [], [].
  - destruct (p c) eqn:Hc.
    + apply or_else_Some in H as [H | [_ H]].
      * apply IH in H as (w & s' & -> & Hlo & Hall & Hk).
        exists (c :: w), s'. simpl. rewrite Hc.
        repeat split; auto. lia.
      * apply at_least_Some in H as [-> H]. exists [], (c :: s).
        repeat split; auto.
    + apply at_least_Some in H as [-> H]. exists [], (c :: s).
      repeat split; auto.
Qed.

Lemma rmatch_sound ic r : forall prev s k x,
  rmatch ic r prev s k = Some x ->
  exists w s', s = w ++ s' /\ lang ic r prev w s'
    /\ k (last_of prev w) s' = Some x.
Proof.
  induction r as [| |neg cs|r1 IH1 r2 IH2|r1 IH1 r2 IH2|r1 IH1 lo hi|neg cs lo];
    intros prev s k x H.
  - exists [], s. by repeat split.
  - simpl in H. destruct (is_boundary prev (head s)) eqn:Hb; [|done].
    exists [], s. by repeat split.
  - simpl in H. destruct s as [|c s]; [done|].
    destruct (in_set ic neg cs c) eqn:Hc; [|done].
    exists [c], s. repeat split; [|done]. by exists c.
  - simpl in H. apply IH1 in H as (w1 & s1 & -> & HL1 & H).
    apply IH2 in H as (w2 & s2 & -> & HL2 & H).
    exists (w1 ++ w2), s2. rewrite <- app_assoc, last_of_app.
    repeat split; [|done]. by exists w1, w2.
  - simpl in H. apply or_else_Some in H as [H | [_ H]].
    + apply IH1 in H as (w & s' & -> & HL & H). exists w, s'.
      repeat split; [|done]. by left.
    + apply IH2 in H as (w & s' & -> & HL & H). exists w, s'.
      repeat split; [|done]. by right.
  - revert lo prev s H. induction hi as [|hi IHhi]; intros lo prev s H.
    + rewrite rmatch_rep_0 in H. apply at_least_Some in H as [-> H].
      exists [], s. repeat split; [|done]. by left.
    + rewrite rmatch_rep_S in H. apply or_else_Some in H as [H | [_ H]].
      * apply IH1 in H as (w1 & s1 & -> & HL1 & H).
        apply IHhi in H as (w2 & s2 & -> & HL2 & H).
        exists (w1 ++ w2), s2. rewrite <- app_assoc, last_of_app.
        repeat split; [|done]. right. by exists w1, w2.
      * apply at_least_Some in H as [-> H].
        exists [], s. repeat split; [|done]. by left.
  - simpl in H. apply many_sound in H as (w & s' & -> & Hlo & Hall & H).
    by exists w, s'.
Qed.

Lemma match_here_sound ic r prev s n :
  match_here ic r prev s = Some n ->
  exists w s', s = w ++ s' /\ lang ic r prev w s' /\ n = length w.
Proof.
  unfold match_here. intros H.
  destruct (rmatch ic r prev s (fun _ s' => Some s')) as [s'|] eqn:Hm; [|done].
  apply rmatch_sound in Hm as (w & s1 & -> & HL & Hk).
  injection Hk as <-. injection H as <-.
  exists w, s1. repeat split; [done|]. rewrite length_app. lia.
Qed.

(** A repetition of a one-character class, exactly [n] times. *)
Lemma reps_class ic neg cs n : forall prev w rest,
  reps (lang ic (RSet neg cs)) n n prev w rest ->
  length w = n /\ forallb (in_set ic neg cs) w = true.
Proof.
  induction n as [|n IH]; intros prev w rest H; simpl in H.
  - destruct H as [[_ ->] | []]. done.
  - destruct H as [[? _] | (w1 & w2 & -> & (c & -> & Hc) & H)]; [done|].
    apply IH in H as [<- Hall]. simpl. by rewrite Hc.
Qed.

(** ** The scan of [finditer]

    While the matches that start in a prefix [p] of the text end in
    [p], the scan comes to the end of [p] with nothing left to pass
    over. *)
Lemma finditer_from_prefix ic r rest p : forall prev pos skip,
  skip <= length p ->
  (forall a b n, p = a ++ b -> b <> [] ->
     match_here ic r (last_of prev a) (b ++ rest) = Some n -> n <= length b) ->
  exists l,
    finditer_from ic r prev (p ++ rest) pos skip
    = l ++ finditer_from ic r (last_of prev p) rest (pos + length p) 0.
Proof.
  induction p as [|c p IH]; intros prev pos skip Hskip Hin.
  - simpl in Hskip. assert (skip = 0) as -> by lia.
    exists []. simpl. by rewrite Nat.add_0_r.
  - assert (forall a b n, p = a ++ b -> b <> [] ->
              match_here ic r (last_of (Some c) a) (b ++ rest) = Some n ->
              n <= length b) as Hin'.
    { intros a b n -> Hb. apply (Hin (c :: a) b n); done. }
    simpl in Hskip. destruct skip as [|skip].
    + simpl. destruct (match_here ic r prev (c :: p ++ rest)) as [n|] eqn:Hm.
      * assert (n <= S (length p)) as Hn.
        { apply (Hin [] (c :: p) n); done. }
        destruct (IH (Some c) (S pos) (pred n)) as [l Hl]; [lia|done|].
        exists ((pos, pos + n) :: l). rewrite Hl. simpl.
        by rewrite Nat.add_succ_r.
      * destruct (IH (Some c) (S pos) 0) as [l Hl]; [lia|done|].
        exists l. rewrite Hl. simpl. by rewrite Nat.add_succ_r.
    + simpl. destruct (IH (Some c) (S pos) skip) as [l Hl]; [lia|done|].
      exists l. rewrite Hl. simpl. by rewrite Nat.add_succ_r.
Qed.

End ReFacts.

(* ===================================================================== *)
(** * Facts about detection *)
(* ===================================================================== *)

Module InspectorFacts.
Import Re ReFacts Inspector.

(** ** Character classes *)

Ltac by_cases_on_char c :=
  destruct c as [[] [] [] [] [] [] [] []]; vm_compute; try reflexivity;
  try discriminate.

Lemma in_set_digit ic c : in_set ic false [CDigit] c = is_digit c.
Proof. destruct ic; by_cases_on_char c. Qed.

Lemma in_set_sep ic c : in_set ic false [CChar "-"; CSpace] c = is_sep c.
Proof. destruct ic; by_cases_on_char c. Qed.

Lemma digit_not_sep c : is_digit c = true -> is_sep c = false.
Proof. by_cases_on_char c. Qed.

Lemma digit_word c : is_digit c = true -> is_word c = true.
Proof. unfold is_word. by intros ->. Qed.

(** ** The shape of a credit-card match *)

Lemma credit_card_eq :
  credit_card = RSeq RBound (RSeq (times 3 group) (RSeq block RBound)).
Proof. reflexivity. Qed.

Lemma digits_sep_weaken w : forall d,
  digits_sep false w = true -> digits_sep d w = true.
Proof.
  destruct w as [|c w]; intros d H; [done|]. simpl in *.
  destruct (is_digit c); [done|]. by rewrite andb_false_r in H.
Qed.

Lemma digits_sep_digits w v : forall d,
  forallb is_digit w = true -> digits_sep false v = true ->
  digits_sep d (w ++ v) = true.
Proof.
  induction w as [|c w IH]; intros d Hw Hv; simpl.
  - by apply digits_sep_weaken.
  - simpl in Hw. apply andb_true_iff in Hw as [-> Hw]. by apply IH.
Qed.

Lemma block_digits ic prev w rest :
  lang ic block prev w rest -> length w = 4 /\ forallb is_digit w = true.
Proof.
  intros H. apply reps_class in H as [Hlen Hall]. split; [done|].
  apply forallb_forall. intros c Hc. rewrite forallb_forall in Hall.
  rewrite <- (in_set_digit ic). by apply Hall.
Qed.

Lemma sep_word ic prev w rest :
  lang ic sep prev w rest -> w = [] \/ exists c, w = [c] /\ is_sep c = true.
Proof.
  intros H. simpl in H.
  destruct H as [[_ ->] | (w1 & w2 & -> & (c & -> & Hc) & H)]; [by left|].
  destruct H as [[_ ->] | []]. right. exists c. by rewrite <- (in_set_sep ic).
Qed.

Lemma group_digits_sep ic prev w rest d v :
  lang ic group prev w rest -> digits_sep false v = true ->
  digits_sep d (w ++ v) = true.
Proof.
  intros (w1 & w2 & -> & H1 & H2) Hv.
  apply block_digits in H1 as [Hlen Hall].
  rewrite <- app_assoc. apply sep_word in H2 as [-> | (c & -> & Hc)].
  - by apply digits_sep_digits.
  - assert (w1 <> []) as Hne by (by intros ->).
    destruct (exists_last Hne) as (w0 & z & ->).
    rewrite forallb_app in Hall. apply andb_true_iff in Hall as [H0 Hz].
    simpl in Hz. rewrite andb_true_r in Hz.
    rewrite <- app_assoc. apply digits_sep_digits; [done|]. simpl.
    rewrite Hz. simpl. destruct (is_digit c) eqn:E.
    + apply digit_not_sep in E. congruence.
    + rewrite Hc. simpl. exact Hv.
Qed.

Lemma groups_digits_sep ic n : forall lo prev w rest d v,
  reps (lang ic group) n lo prev w rest -> digits_sep false v = true ->
  digits_sep d (w ++ v) = true.
Proof.
  induction n as [|n IH]; intros lo prev w rest d v H Hv; simpl in H.
  - destruct H as [[_ ->] | []]. by apply digits_sep_weaken.
  - destruct H as [[_ ->] | (w1 & w2 & -> & H1 & H2)].
    + by apply digits_sep_weaken.
    + rewrite <- app_assoc.
      apply (group_digits_sep ic prev w1 (w2 ++ rest) d (w2 ++ v) H1).
      exact (IH (pred lo) (last_of prev w1) w2 rest false v H2 Hv).
Qed.

(** Every match of the credit-card pattern is made of digits and
    separators, each separator right after a digit. *)
Lemma credit_card_digits_sep ic prev w rest :
  lang ic credit_card prev w rest -> digits_sep false w = true.
Proof.
  rewrite credit_card_eq.
  intros (w1 & w2 & -> & [-> _] & w3 & w4 & -> & H3 & w5 & w6 & -> & H5
          & [-> _]).
  simpl. eapply groups_digits_sep; [exact H3|].
  rewrite app_nil_r. apply block_digits in H5 as [_ H5].
  rewrite <- (app_nil_r w5). by apply digits_sep_digits.
Qed.

Lemma digits_sep_prefix a b : forall d,
  digits_sep d (a ++ b) = true -> digits_sep d a = true.
Proof.
  induction a as [|c a IH]; intros d H; [done|]. simpl in *.
  destruct (is_digit c); [by apply IH|].
  apply andb_true_iff in H as [H1 H2]. rewrite H1. simpl. by apply IH in H2.
Qed.

Lemma digits_sep_last p c : forall d,
  digits_sep d (p ++ [c]) = true ->
  is_digit c = true
  \/ (is_sep c = true
      /\ match last p with Some a => is_digit a | None => d end = true).
Proof.
  induction p as [|a p IH]; intros d H; simpl in H.
  - destruct (is_digit c); [by left|]. right.
    rewrite andb_true_r in H. by apply andb_true_iff in H.
  - destruct (is_digit a) eqn:Ha.
    + apply IH in H as [H | [H1 H2]]; [by left|]. right. split; [done|].
      destruct p as [|a0 p]; [done|]. change (last (a :: a0 :: p)) with (last (a0 :: p)).
      destruct (last (a0 :: p)) eqn:E; [exact H2 | by apply last_None in E].
    + apply andb_true_iff in H as [_ H].
      apply IH in H as [H | [H1 H2]]; [by left|]. right. split; [done|].
      destruct p as [|a0 p]; [done|]. change (last (a :: a0 :: p)) with (last (a0 :: p)).
      destruct (last (a0 :: p)) eqn:E; [exact H2 | by apply last_None in E].
Qed.

(** A match of the credit-card pattern that starts in a text that is
    free before what follows ends in that text. *)
Lemma credit_card_ends_before ic pre a b rest prev n :
  free_before pre = true -> pre = a ++ b -> b <> [] ->
  match_here ic credit_card prev (b ++ rest) = Some n -> n <= length b.
Proof.
  intros Hfree -> Hb Hm.
  apply match_here_sound in Hm as (w & s' & Heq & HL & ->).
  apply credit_card_digits_sep in HL.
  apply app_eq_inv in Heq as [(k & -> & _) | (k & -> & _)].
  - rewrite length_app. lia.
  - exfalso. apply digits_sep_prefix in HL.
    destruct (exists_last Hb) as (b' & c & ->).
    unfold free_before in Hfree.
    rewrite app_assoc, reverse_snoc in Hfree.
    apply andb_true_iff in Hfree as [Hw Hs].
    apply negb_true_iff in Hw, Hs.
    apply digits_sep_last in HL as [Hc | [Hc Hl]].
    + apply digit_word in Hc. congruence.
    + rewrite Hc in Hs. simpl in Hs.
      destruct (last b') as [z|] eqn:Hz; [|done].
      apply last_Some in Hz as [b'' ->].
      rewrite app_assoc, reverse_snoc in Hs. congruence.
Qed.

(** ** The credit-card pattern matches a card number *)

Lemma rmatch_times_S ic r n prev s k :
  rmatch ic (times (S n) r) prev s k
  = rmatch ic r prev s (fun p' s' => rmatch ic (times n r) p' s' k).
Proof. unfold times. rewrite rmatch_rep_S. simpl. apply or_else_None_r. Qed.

Lemma rmatch_times_0 ic r prev s k : rmatch ic (times 0 r) prev s k = k prev s.
Proof. reflexivity. Qed.

Lemma rmatch_seq ic r1 r2 prev s k :
  rmatch ic (RSeq r1 r2) prev s k
  = rmatch ic r1 prev s (fun p' s' => rmatch ic r2 p' s' k).
Proof. reflexivity. Qed.

Lemma rmatch_bound ic prev s k :
  is_boundary prev (head s) = true -> rmatch ic RBound prev s k = k prev s.
Proof. intros H. cbn [rmatch]. by rewrite H. Qed.

Lemma rmatch_digit ic prev c s k :
  is_digit c = true -> rmatch ic digit prev (c :: s) k = k (Some c) s.
Proof. intros H. unfold digit. cbn [rmatch]. by rewrite in_set_digit, H. Qed.

Lemma take_block_inv w w' :
  take_block w = Some w' ->
  exists a b c d, w = a :: b :: c :: d :: w'
    /\ is_digit a = true /\ is_digit b = true /\ is_digit c = true
    /\ is_digit d = true.
Proof.
  destruct w as [|a [|b [|c [|d w]]]]; simpl; try done.
  destruct (is_digit a) eqn:Ha, (is_digit b) eqn:Hb, (is_digit c) eqn:Hc,
    (is_digit d) eqn:Hd; simpl; try done.
  intros [= <-]. by exists a, b, c, d.
Qed.

Lemma rmatch_block ic prev w w' k :
  take_block w = Some w' ->
  exists d, is_digit d = true
    /\ rmatch ic block prev w k = k (Some d) w'.
Proof.
  intros H. apply take_block_inv in H as (a & b & c & d & -> & Ha & Hb & Hc & Hd).
  exists d. split; [done|]. unfold block.
  rewrite rmatch_times_S, rmatch_digit by done.
  rewrite rmatch_times_S, rmatch_digit by done.
  rewrite rmatch_times_S, rmatch_digit by done.
  rewrite rmatch_times_S, rmatch_digit by done.
  reflexivity.
Qed.

Lemma rmatch_sep ic prev w k x :
  (forall p, k p (skip_sep w) = Some x) -> rmatch ic sep prev w k = Some x.
Proof.
  intros Hk. unfold sep, opt, set. rewrite rmatch_rep_S.
  cbn [rmatch at_least Nat.pred].
  destruct w as [|c w]; [apply Hk|].
  rewrite in_set_sep. cbn [skip_sep] in Hk.
  destruct (is_sep c); cbn [or_else]; by rewrite Hk.
Qed.

Lemma rmatch_group ic prev w w' k x :
  take_block w = Some w' ->
  (forall p, k p (skip_sep w') = Some x) ->
  rmatch ic group prev w k = Some x.
Proof.
  intros Hw Hk. unfold group. cbn [rmatch].
  destruct (rmatch_block ic prev w w' (fun p' s' => rmatch ic sep p' s' k) Hw)
    as (d & _ & ->).
  by apply rmatch_sep.
Qed.

Lemma take_block_app w w' v :
  take_block w = Some w' -> take_block (w ++ v) = Some (w' ++ v).
Proof.
  intros H. apply take_block_inv in H as (a & b & c & d & -> & Ha & Hb & Hc & Hd).
  simpl. by rewrite Ha, Hb, Hc, Hd.
Qed.

Lemma skip_sep_app w w' v :
  take_block (skip_sep w) = Some w' -> skip_sep (w ++ v) = skip_sep w ++ v.
Proof.
  destruct w as [|c w]; [done|]. simpl. by destruct (is_sep c).
Qed.

Lemma credit_card_matches ic prev card post :
  is_card16 card = true -> word_at prev = false -> free_after post = true ->
  match_here ic credit_card prev (card ++ post) = Some (length card).
Proof.
  intros Hcard Hprev Hpost. unfold is_card16 in Hcard.
  destruct (take_block card) as [w1|] eqn:H1; [|done].
  destruct (take_block (skip_sep w1)) as [w2|] eqn:H2; [|done].
  destruct (take_block (skip_sep w2)) as [w3|] eqn:H3; [|done].
  destruct (take_block (skip_sep w3)) as [[|]|] eqn:H4; try done.
  assert (rmatch ic credit_card prev (card ++ post) (fun _ s' => Some s')
          = Some post) as Hm.
  { rewrite credit_card_eq.
    apply take_block_inv in H1 as Hc. destruct Hc as (a & b & c & d & Hc & Ha & _).
    rewrite rmatch_seq, rmatch_bound.
    2: { rewrite Hc. unfold is_boundary. simpl.
         by rewrite Hprev, (digit_word a Ha). }
    rewrite rmatch_seq, rmatch_times_S.
    eapply rmatch_group; [by apply take_block_app|]. intros p1.
    rewrite (skip_sep_app _ _ _ H2), rmatch_times_S.
    eapply rmatch_group; [by apply take_block_app|]. intros p2.
    rewrite (skip_sep_app _ _ _ H3), rmatch_times_S.
    eapply rmatch_group; [by apply take_block_app|]. intros p3.
    rewrite (skip_sep_app _ _ _ H4), rmatch_times_0, rmatch_seq.
    destruct (rmatch_block ic p3 (skip_sep w3 ++ post) post
                (fun p' s' => rmatch ic RBound p' s' (fun _ s'' => Some s'')))
      as (z & Hz & ->); [by apply (take_block_app _ [])|].
    rewrite rmatch_bound; [done|].
    unfold is_boundary. simpl. rewrite (digit_word z Hz).
    destruct post as [|q post]; [done|]. simpl in *.
    by apply negb_true_iff in Hpost as ->. }
  unfold match_here. rewrite Hm, length_app. f_equal. lia.
Qed.

(** ** Detection of card numbers *)

Lemma finditer_from_head ic r prev s pos n :
  match_here ic r prev s = Some n ->
  In (pos, pos + n) (finditer_from ic r prev s pos 0).
Proof. intros H. destruct s; simpl; rewrite H; by left. Qed.

Lemma free_before_word pre :
  free_before pre = true -> word_at (last_of None pre) = false.
Proof.
  destruct pre as [|a pre]; [done|].
  assert (a :: pre <> []) as Hne by done.
  destruct (exists_last Hne) as (p & c & ->).
  unfold free_before. rewrite reverse_snoc, last_of_snoc. simpl.
  intros H. apply andb_true_iff in H as [H _]. by apply negb_true_iff.
Qed.

Lemma credit_card_span pre card post :
  is_card16 card = true -> free_before pre = true -> free_after post = true ->
  In (length pre, length pre + length card)
     (finditer true credit_card (pre ++ card ++ post)).
Proof.
  intros Hcard Hpre Hpost. unfold finditer.
  destruct (finditer_from_prefix true credit_card (card ++ post) pre None 0 0)
    as [l ->]; [lia| |].
  - intros a b n Hab Hb. by apply (credit_card_ends_before _ pre a b).
  - apply in_or_app. right. simpl. apply finditer_from_head.
    apply credit_card_matches; [done| |done]. by apply free_before_word.
Qed.

Lemma slice_middle (pre w post : text) :
  slice (pre ++ w ++ post) (length pre) (length pre + length w) = w.
Proof.
  unfold slice. rewrite drop_app_length.
  replace (length pre + length w - length pre) with (length w) by lia.
  apply take_app_length.
Qed.

(** C2, as the code has it. A card number of exactly sixteen digits,
    in four blocks of four with at most one dash or white-space
    character between two blocks, that stands alone in the text (no
    word character right before or after it, and no digit followed by
    one separator right before it) is reported by [inspect_text] as one
    finding of type credit_card and severity HIGH whose value and
    position are exactly that number. *)
Theorem credit_card_16_detected (pre card post : text) :
  is_card16 card = true -> free_before pre = true -> free_after post = true ->
  In {| f_type := "credit_card";
        f_value := card;
        f_position := (length pre, length pre + length card);
        f_severity := "HIGH" |}
     (inspect_text (pre ++ card ++ post)).
Proof.
  intros Hcard Hpre Hpost. unfold inspect_text, PATTERNS.
  cbn [map concat]. apply in_or_app. left.
  unfold findings_of. apply in_map_iff.
  exists (length pre, length pre + length card). split.
  - cbn [fst snd]. by rewrite slice_middle.
  - by apply credit_card_span.
Qed.

Lemma credit_card_16_detected_witness :
  is_card16 (txt "1111-2222-3333-4444") = true
  /\ free_before (txt "Card: ") = true
  /\ free_after (txt ", Pass: Secret123") = true
  /\ In {| f_type := "credit_card";
           f_value := txt "1111-2222-3333-4444";
           f_position := (6, 25);
           f_severity := "HIGH" |}
        (inspect_text
           (txt "Card: " ++ txt "1111-2222-3333-4444"
              ++ txt ", Pass: Secret123")).
Proof.
  assert (is_card16 (txt "1111-2222-3333-4444") = true) as H1 by reflexivity.
  assert (free_before (txt "Card: ") = true) as H2 by reflexivity.
  assert (free_after (txt ", Pass: Secret123") = true) as H3 by reflexivity.
  repeat split; try assumption.
  exact (credit_card_16_detected (txt "Card: ") (txt "1111-2222-3333-4444")
           (txt ", Pass: Secret123") H1 H2 H3).
Defined.

(** C2, as the claim has it, fails: runs of 13, 14 and 15 digits that
    stand alone in the text are not reported as credit_card (nor as
    anything else). *)
Lemma credit_card_13_digits_missed :
  (is_digit_run 13 (txt "4111111111111") = true
   /\ ~ exists f, In f (inspect_text (txt "4111111111111"))
                  /\ f_type f = "credit_card"%string)
  /\ (is_digit_run 14 (txt "41111111111111") = true
      /\ ~ exists f, In f (inspect_text (txt "41111111111111"))
                     /\ f_type f = "credit_card"%string)
  /\ (is_digit_run 15 (txt "411111111111111") = true
      /\ ~ exists f, In f (inspect_text (txt "Card: 411111111111111 ok"))
                     /\ f_type f = "credit_card"%string).
Proof.
  repeat split; try reflexivity.
  - assert (inspect_text (txt "4111111111111") = []) as ->
      by (vm_compute; reflexivity).
    by intros (f & [] & _).
  - assert (inspect_text (txt "41111111111111") = []) as ->
      by (vm_compute; reflexivity).
    by intros (f & [] & _).
  - assert (inspect_text (txt "Card: 411111111111111 ok") = []) as ->
      by (vm_compute; reflexivity).
    by intros (f & [] & _).
Qed.

End InspectorFacts.

(* ===================================================================== *)
(** * Facts about the redactor *)
(* ===================================================================== *)

Module RedactorFacts.
Import Inspector PhantomRedactor.

(** ** The log of [redact_text] *)

Lemma redact_one_log pf acc f :
  (redact_one pf acc f).2 = acc.2 ++ [record_of pf f].
Proof.
  destruct acc as [t log]. unfold redact_one, record_of.
  by destruct (f_position f).
Qed.

Lemma foldl_redact_log pf fs : forall acc,
  (foldl (redact_one pf) acc fs).2 = acc.2 ++ map (record_of pf) fs.
Proof.
  induction fs as [|f fs IH]; intros acc; simpl.
  - by rewrite app_nil_r.
  - rewrite IH, redact_one_log, <- app_assoc. done.
Qed.

Lemma redact_findings_log pf t fs :
  (redact_findings pf t fs).2 = map (record_of pf) fs.
Proof. unfold redact_findings. by rewrite foldl_redact_log. Qed.

Lemma insert_desc_perm x l : insert_desc x l ≡ₚ x :: l.
Proof.
  induction l as [|y l IH]; simpl; [done|].
  destruct (_ <? _); [|done].
  rewrite IH. apply Permutation_swap.
Qed.

Lemma sorted_desc_perm l : sorted_desc l ≡ₚ l.
Proof.
  induction l as [|x l IH]; simpl; [done|].
  rewrite insert_desc_perm. by constructor.
Qed.

Lemma redact_text_log t pf :
  (redact_text t pf).2 = map (record_of pf) (sorted_desc (inspect_text t)).
Proof. unfold redact_text. apply redact_findings_log. Qed.

(** Every entry of the log comes from a finding of the text. *)
Lemma redact_text_log_inv t pf r :
  In r (redact_text t pf).2 ->
  exists f, In f (inspect_text t) /\ r = record_of pf f.
Proof.
  rewrite redact_text_log, in_map_iff. intros (f & <- & Hf).
  exists f. split; [|done].
  apply list_elem_of_In. rewrite <- (sorted_desc_perm (inspect_text t)).
  by apply list_elem_of_In.
Qed.

(** ** Severities *)

Lemma get_severity_known name : _get_severity name ∈ SEVERITIES.
Proof.
  unfold _get_severity, SEVERITIES.
  repeat case_bool_decide; rewrite !elem_of_cons; auto.
Qed.

Lemma findings_of_severity t p :
  Forall (fun f => f_severity f = _get_severity (f_type f)) (findings_of t p).
Proof. unfold findings_of. apply Forall_forall. intros f Hf.
  apply list_elem_of_In, in_map_iff in Hf. by destruct Hf as (sp & <- & _).
Qed.

Lemma inspect_text_severity t :
  Forall (fun f => f_severity f = _get_severity (f_type f)) (inspect_text t).
Proof.
  unfold inspect_text. induction PATTERNS as [|p ps IH]; simpl.
  - constructor.
  - apply Forall_app. split; [apply findings_of_severity | apply IH].
Qed.

Lemma redact_text_severities t pf :
  Forall (fun r => r_severity r ∈ SEVERITIES) (redact_text t pf).2.
Proof.
  apply Forall_forall. intros r Hr.
  apply list_elem_of_In, redact_text_log_inv in Hr.
  destruct Hr as (f & Hf & ->). simpl.
  pose proof (inspect_text_severity t) as Hs.
  rewrite Forall_forall in Hs.
  rewrite (Hs f) by (by apply list_elem_of_In).
  apply get_severity_known.
Qed.

(** ** The summary *)

Lemma count_redactions_defined l : forall s,
  dom (by_severity s) = list_to_set SEVERITIES ->
  Forall (fun r => r_severity r ∈ SEVERITIES) l ->
  exists s', count_redactions s l = Some s'
    /\ dom (by_severity s') = list_to_set SEVERITIES
    /\ total_redactions s' = total_redactions s.
Proof.
  induction l as [|r l IH]; intros s Hdom Hall; simpl.
  - by exists s.
  - inversion Hall as [|? ? Hr Hl]; subst.
    assert (r_severity r ∈ dom (by_severity s)) as Hin.
    { rewrite Hdom. by apply elem_of_list_to_set. }
    apply elem_of_dom in Hin as [n Hn].
    unfold count_redaction. rewrite Hn.
    edestruct IH as (s' & Hs' & Hdom' & Htot); [|exact Hl|].
    2: { exists s'. split; [exact Hs'|]. split; [exact Hdom'|]. by rewrite Htot. }
    cbn [by_severity]. rewrite dom_insert_L, Hdom.
    apply set_eq. intros x. rewrite elem_of_union, elem_of_singleton.
    split; [intros [->|Hx] | intros Hx; by right]; [|assumption].
    by apply elem_of_list_to_set.
Qed.

Lemma create_summary_defined log :
  Forall (fun r => r_severity r ∈ SEVERITIES) log ->
  exists s, _create_summary log = Some s
    /\ dom (by_severity s) = list_to_set SEVERITIES
    /\ total_redactions s = length log.
Proof.
  intros Hall. unfold _create_summary.
  apply (count_redactions_defined log); [|done].
  simpl. rewrite !dom_insert_L, dom_empty_L. unfold SEVERITIES. simpl.
  reflexivity.
Qed.

(** [redact_document] never raises. *)
Lemma redact_document_defined content :
  exists s,
    _create_summary (redact_text content true).2 = Some s
    /\ redact_document content
       = Some {| d_original := content;
                 d_redacted := (redact_text content true).1;
                 d_redaction_count := length (redact_text content true).2;
                 d_redaction_log := (redact_text content true).2;
                 d_summary := s |}.
Proof.
  destruct (create_summary_defined _ (redact_text_severities content true))
    as (s & Hs & _).
  exists s. split; [done|].
  unfold redact_document. destruct (redact_text content true) as [t log].
  simpl in *. by rewrite Hs.
Qed.

(** C5. For every text and either mode, the log returned by
    [redact_text] has as many entries as detection has findings on that
    text, and its entries carry, one for one, the type, the severity,
    the position and the matched value of those findings: none is
    dropped, none is altered. *)
Theorem redact_text_one_record_per_finding (t : text) (pf : bool) :
  length (redact_text t pf).2 = length (inspect_text t)
  /\ map (fun r => (r_type r, r_severity r, r_position r, r_original r))
         (redact_text t pf).2
     ≡ₚ map (fun f => (f_type f, f_severity f, f_position f, f_value f))
            (inspect_text t).
Proof.
  rewrite redact_text_log. split.
  - by rewrite length_map, (sorted_desc_perm (inspect_text t)).
  - rewrite <- list_fmap_compose. simpl.
    by rewrite (sorted_desc_perm (inspect_text t)).
Qed.

(** C8. With [preserve_format] true, every entry of the log comes from
    a finding of the text; when the matched value is longer than 4
    characters the redacted value is its first 2 characters followed by
    one [*] for each remaining character, so both have the same
    length; when it has at most 4 characters the redacted value is one
    [*] for each of them. *)
Theorem preserve_format_masks (t : text) (r : redaction) :
  In r (redact_text t true).2 ->
  (exists f, In f (inspect_text t) /\ r_original r = f_value f
             /\ r_position r = f_position f)
  /\ (4 < length (r_original r) ->
      r_redacted r
      = take 2 (r_original r) ++ replicate (length (r_original r) - 2) "*"%char
      /\ length (r_redacted r) = length (r_original r))
  /\ (length (r_original r) <= 4 ->
      r_redacted r = replicate (length (r_original r)) "*"%char).
Proof.
  intros Hr. apply redact_text_log_inv in Hr as (f & Hf & ->).
  simpl. split; [by exists f|].
  unfold redacted_value. split; intros Hlen.
  - apply Nat.ltb_lt in Hlen as Hlt. rewrite Hlt. split; [done|].
    rewrite length_app, length_take, length_replicate. lia.
  - destruct (4 <? length (f_value f)) eqn:E; [|done].
    apply Nat.ltb_lt in E. lia.
Qed.

Lemma preserve_format_masks_witness :
  In masking_entry (redact_text masking_text true).2
  /\ ((exists f, In f (inspect_text masking_text)
                 /\ r_original masking_entry = f_value f
                 /\ r_position masking_entry = f_position f)
      /\ (4 < length (r_original masking_entry) ->
          r_redacted masking_entry
          = take 2 (r_original masking_entry)
              ++ replicate (length (r_original masking_entry) - 2) "*"%char
          /\ length (r_redacted masking_entry)
             = length (r_original masking_entry))
      /\ (length (r_original masking_entry) <= 4 ->
          r_redacted masking_entry
          = replicate (length (r_original masking_entry)) "*"%char)).
Proof.
  assert (In masking_entry (redact_text masking_text true).2) as H
    by (vm_compute; left; reflexivity).
  split; [exact H | exact (preserve_format_masks masking_text masking_entry H)].
Defined.

(** C9. When detection finds nothing in a text, [redact_text] returns
    the text unchanged and an empty log, whatever [preserve_format]
    is. *)
Theorem redact_text_no_findings (t : text) (pf : bool) :
  inspect_text t = [] -> redact_text t pf = (t, []).
Proof. intros H. unfold redact_text. by rewrite H. Qed.

Lemma redact_text_no_findings_witness :
  inspect_text (txt "Hello world") = []
  /\ redact_text (txt "Hello world") false = (txt "Hello world", []).
Proof.
  assert (inspect_text (txt "Hello world") = []) as H
    by (vm_compute; reflexivity).
  split; [exact H | exact (redact_text_no_findings (txt "Hello world") false H)].
Defined.

(** C10. The severity of a pattern name is always HIGH, MEDIUM or LOW
    (LOW for every name outside the two lists), every finding of
    [inspect_text] carries such a severity, and so [_create_summary]
    never meets a missing key on the log of [redact_text]: it returns a
    summary, whose [by_severity] has exactly the keys HIGH, MEDIUM and
    LOW. *)
Theorem severity_keys_always_defined :
  (forall name : string,
      _get_severity name ∈ ["HIGH"; "MEDIUM"; "LOW"]%string
      /\ (name ∉ ["credit_card"; "ssn"; "password"; "api_key";
                  "account_number"; "routing_number"]%string
          -> _get_severity name = "LOW"%string))
  /\ (forall t : text,
         Forall (fun f => f_severity f ∈ ["HIGH"; "MEDIUM"; "LOW"]%string)
                (inspect_text t))
  /\ (forall (t : text) (pf : bool),
         exists s, _create_summary (redact_text t pf).2 = Some s
           /\ dom (by_severity s) = {["HIGH"; "MEDIUM"; "LOW"]}%string).
Proof.
  split; [|split].
  - intros name. split; [apply get_severity_known|].
    intros Hname. unfold _get_severity.
    repeat case_bool_decide; [exfalso; apply Hname ..|reflexivity];
      rewrite !elem_of_cons in *; tauto.
  - intros t. eapply Forall_impl; [apply inspect_text_severity|].
    intros f ->. apply get_severity_known.
  - intros t pf.
    destruct (create_summary_defined _ (redact_text_severities t pf))
      as (s & Hs & Hdom & _).
    exists s. split; [done|]. rewrite Hdom. unfold SEVERITIES. simpl.
    apply set_eq. intros x.
    rewrite !elem_of_union, !elem_of_singleton, elem_of_empty. tauto.
Qed.

End RedactorFacts.

(* ===================================================================== *)
(** * Facts about the interceptor *)
(* ===================================================================== *)

Module ArchestraFacts.
Import Inspector PhantomRedactor RedactorFacts Archestra.

(** ** Trace ids *)

(** The number a padded decimal string stands for. *)
Lemma zeros_value k s :
  NilEmpty.uint_of_string
    (String.append (string_of_list_ascii (replicate k "0"%char)) s)
  = (Nat.iter k D0) <$> NilEmpty.uint_of_string s.
Proof.
  induction k as [|k IH].
  - change (NilEmpty.uint_of_string s = id <$> NilEmpty.uint_of_string s).
    by destruct (NilEmpty.uint_of_string s).
  - change (DecimalString.uint_of_char "0"%char
              (NilEmpty.uint_of_string
                 (String.append (string_of_list_ascii (replicate k "0"%char)) s))
            = Nat.iter (S k) D0 <$> NilEmpty.uint_of_string s).
    rewrite IH. by destruct (NilEmpty.uint_of_string s).
Qed.

Lemma of_uint_zeros k d : Nat.of_uint (Nat.iter k D0 d) = Nat.of_uint d.
Proof. induction k as [|k IH]; [done|]. simpl. exact IH. Qed.

Lemma fmt_04d_value n :
  Nat.of_uint <$> NilEmpty.uint_of_string (fmt_04d n) = Some n.
Proof.
  unfold fmt_04d, zfill. rewrite zeros_value, NilEmpty.usu. simpl.
  by rewrite of_uint_zeros, DecimalNat.Unsigned.of_to.
Qed.

Lemma fmt_04d_inj n m : fmt_04d n = fmt_04d m -> n = m.
Proof.
  intros H. pose proof (fmt_04d_value n) as Hn.
  rewrite H, fmt_04d_value in Hn. by injection Hn.
Qed.

Lemma make_trace_id_inj n m : make_trace_id n = make_trace_id m -> n = m.
Proof. unfold make_trace_id. simpl. intros [= H]. by apply fmt_04d_inj. Qed.

(** Under [wf], the next id is not in the log. *)
Lemma wf_fresh st :
  wf st ->
  Forall (fun t => trace_id t <> make_trace_id (interception_count st + 1))
         (trace_log st).
Proof.
  intros Hwf. apply Forall_forall. intros t Ht Heq.
  assert (In (trace_id t) (map trace_id (trace_log st))) as Hin.
  { apply in_map. by apply list_elem_of_In. }
  rewrite Hwf, Heq in Hin. apply in_map_iff in Hin as (i & Hi & Hseq).
  apply make_trace_id_inj in Hi. apply in_seq in Hseq. lia.
Qed.

(** ** The loop over the log *)

Lemma update_first_last id f l t :
  Forall (fun t' => trace_id t' <> id) l -> trace_id t = id ->
  update_first id f (l ++ [t]) = Some (l ++ [f t]).
Proof.
  intros Hl Ht. induction Hl as [|t' l Ht' Hl IH]; simpl.
  - rewrite Ht, String.eqb_refl. done.
  - apply String.eqb_neq in Ht'. rewrite Ht', IH. done.
Qed.

Lemma find_last id l t :
  Forall (fun t' => trace_id t' <> id) l -> trace_id t = id ->
  find (fun t' => String.eqb (trace_id t') id) (l ++ [t]) = Some t.
Proof.
  intros Hl Ht. induction Hl as [|t' l Ht' Hl IH]; simpl.
  - by rewrite Ht, String.eqb_refl.
  - apply String.eqb_neq in Ht'. by rewrite Ht'.
Qed.

(** ** One interception *)

Section Runs.

Variable now : nat -> Z.

Ltac run :=
  cbv beta iota zeta
      delta [process_with_trace intercept bind ret lift _start_trace time_time
             _log_trace _complete_trace trace_log interception_count clock
             s_description s_data d_redacted d_summary d_redaction_log
             d_redaction_count].

Lemma interceptor_eq l l' c c' k k' :
  l = l' -> c = c' -> k = k' ->
  {| trace_log := l; interception_count := c; clock := k |}
  = {| trace_log := l'; interception_count := c'; clock := k' |}.
Proof. by intros -> -> ->. Qed.

Ltac log_last Hfresh :=
  rewrite update_first_last by (exact Hfresh || reflexivity).

(** What [process_with_trace] does to a well-formed interceptor. *)
Lemma process_with_trace_run content st :
  wf st ->
  exists res t,
    process_with_trace now content st
    = (Some res,
       {| trace_log := trace_log st ++ [t];
          interception_count := interception_count st + 1;
          clock := clock st + 10 |})
    /\ res_trace_id res = make_trace_id (interception_count st + 1)
    /\ redacted_content res = (redact_text content true).1
    /\ redaction_details res = (redact_text content true).2
    /\ length (trace_steps res) = 4
    /\ trace_id t = make_trace_id (interception_count st + 1)
    /\ map e_type (events t) = PHASES
    /\ status t = "completed"%string
    /\ start_time t = now (clock st)
    /\ end_time t = Some (now (clock st + 9))
    /\ duration t = Some (now (clock st + 9) - now (clock st))%Z
    /\ (forall total, sum_redactions total (events t) = Some total).
Proof.
  intros Hwf. apply wf_fresh in Hwf as Hfresh.
  destruct (redact_document_defined content) as (s & _ & Hdoc).
  destruct st as [l c k]. cbn [trace_log interception_count clock] in *.
  run. rewrite Hdoc. run.
  do 5 (log_last Hfresh; run).
  eexists _, _. split.
  { do 2 f_equal. f_equal; lia. }
  repeat split.
  - cbn. f_equal. f_equal. lia.
  - cbn. f_equal. f_equal; f_equal; lia.
  - intros total. cbn.
    rewrite !lookup_insert_ne by done. rewrite lookup_empty. cbn.
    by rewrite Z.add_0_r.
Qed.

Lemma wf_init : wf init.
Proof. reflexivity. Qed.

Lemma wf_push st t :
  wf st -> trace_id t = make_trace_id (interception_count st + 1) ->
  wf {| trace_log := trace_log st ++ [t];
        interception_count := interception_count st + 1;
        clock := clock st + 10 |}.
Proof.
  unfold wf. simpl. intros Hwf Ht.
  rewrite map_app, Hwf, Nat.add_1_r, seq_S, map_app. simpl.
  by rewrite Ht, Nat.add_1_r.
Qed.

(** What the wrapper of [intercept] does to a well-formed interceptor:
    the wrapped function is called once, on [call_of args kwargs]. *)
Lemma intercept_run args kwargs st :
  wf st ->
  exists t st_raised,
    (forall (R : Type) (func : list text -> gmap string text -> option R),
        intercept now func args kwargs st
        = match func (call_of args kwargs).1 (call_of args kwargs).2 with
          | Some r =>
              (Some r,
               {| trace_log := trace_log st ++ [t];
                  interception_count := interception_count st + 1;
                  clock := clock st + 10 |})
          | None => (None, st_raised)
          end)
    /\ trace_id t = make_trace_id (interception_count st + 1)
    /\ map e_type (events t) = PHASES
    /\ status t = "completed"%string
    /\ wf st_raised
    /\ map status (trace_log st_raised)
       = map status (trace_log st) ++ ["in_progress"%string].
Proof.
  intros Hwf. apply wf_fresh in Hwf as Hfresh.
  destruct (redact_document_defined (content_of args kwargs)) as (s & _ & Hdoc).
  destruct st as [l c k]. cbn [trace_log interception_count clock] in *.
  eexists _, _. split.
  { intros R func. run. rewrite Hdoc. run.
    do 4 (log_last Hfresh; run).
    change (substituted (redact_text (content_of args kwargs) true).1
              args kwargs)
      with (call_of args kwargs).
    destruct (func (call_of args kwargs).1 (call_of args kwargs).2) as [r|].
    - log_last Hfresh. f_equal.
      apply interceptor_eq; [reflexivity | lia | lia].
    - reflexivity. }
  repeat split.
  - unfold wf in *. cbn [trace_log interception_count] in *.
    rewrite map_app, Hwf, Nat.add_1_r, seq_S, map_app. reflexivity.
  - cbn [trace_log]. by rewrite map_app.
Qed.

(** C6. On a well-formed interceptor [process_with_trace] returns, and
    the trace found under the id it returns has exactly the 4 events
    AGENT_READ, ARCHESTRA_INTERCEPT, PHANTOM_REDACT,
    SAFE_DATA_DELIVERED in that order, has status completed, and has
    an end time and a duration that is their difference; when the
    clock never runs backwards, the end time is at least the start
    time. *)
Theorem process_with_trace_completes (content : text) (st : interceptor) :
  wf st ->
  exists res st' t,
    process_with_trace now content st = (Some res, st')
    /\ get_trace_by_id st' (res_trace_id res) = Some t
    /\ map e_type (events t)
       = ["AGENT_READ"; "ARCHESTRA_INTERCEPT"; "PHANTOM_REDACT";
          "SAFE_DATA_DELIVERED"]%string
    /\ length (events t) = 4
    /\ status t = "completed"%string
    /\ exists t_end,
         end_time t = Some t_end
         /\ duration t = Some (t_end - start_time t)%Z
         /\ (monotone now -> (start_time t <= t_end)%Z).
Proof.
  intros Hwf.
  destruct (process_with_trace_run content st Hwf)
    as (res & t & Hrun & Hid & _ & _ & _ & Ht & Hev & Hst & Hs & He & Hd & _).
  eexists res, _, t. split; [exact Hrun|].
  split.
  { unfold get_trace_by_id. cbn [trace_log]. rewrite Hid.
    apply find_last; [by apply wf_fresh | done]. }
  split; [exact Hev|]. split.
  { rewrite <- (length_map e_type), Hev. done. }
  split; [exact Hst|].
  exists (now (clock st + 9)). rewrite Hs. repeat split; try done.
  intros Hmono. apply Hmono. lia.
Qed.


(** When the wrapped function raises, so does the wrapper, and the
    trace of the interception stays in progress. *)
Lemma intercept_raises {R : Type}
  (func : list text -> gmap string text -> option R) args kwargs st :
  wf st ->
  func (call_of args kwargs).1 (call_of args kwargs).2 = None ->
  exists st',
    intercept now func args kwargs st = (None, st')
    /\ wf st'
    /\ map status (trace_log st')
       = map status (trace_log st) ++ ["in_progress"%string].
Proof.
  intros Hwf Hr.
  destruct (intercept_run args kwargs st Hwf)
    as (t & sr & H & _ & _ & _ & Hwf' & Hst).
  exists sr. by rewrite H, Hr.
Qed.

Lemma process_with_trace_wf content st :
  wf st -> wf (process_with_trace now content st).2.
Proof.
  intros Hwf.
  destruct (process_with_trace_run content st Hwf)
    as (res & t & -> & _ & _ & _ & _ & Ht & _).
  by apply wf_push.
Qed.

(** ** Statistics *)

Lemma sum_traces_snoc l t : forall acc,
  sum_traces acc (l ++ [t])
  = match sum_traces acc l with
    | Some acc' => sum_traces acc' [t]
    | None => None
    end.
Proof.
  induction l as [|t' l IH]; intros acc; simpl.
  - done.
  - destruct (String.eqb (status t') "completed"); [|apply IH].
    destruct (sum_redactions acc.1 (events t')); [apply IH|done].
Qed.

(** ** A sequence of interceptions *)

Lemma process_all_run contents : forall st,
  wf st ->
  (exists d, sum_traces (0, 0)%Z (trace_log st) = Some (0%Z, d)) ->
  exists rs st',
    process_all now contents st = (Some rs, st')
    /\ wf st'
    /\ interception_count st' = interception_count st + length contents
    /\ map res_trace_id rs
       = map make_trace_id (seq (interception_count st + 1) (length contents))
    /\ (exists d, sum_traces (0, 0)%Z (trace_log st') = Some (0%Z, d)).
Proof.
  induction contents as [|c cs IH]; intros st Hwf [d Hsum].
  - exists [], st. simpl. rewrite Nat.add_0_r. repeat split; eauto.
  - destruct (process_with_trace_run c st Hwf)
      as (res & t & Hrun & Hid & _ & _ & _ & Ht & _ & Hst & _ & _ & Hd & Hred).
    destruct (IH _ (wf_push st t Hwf Ht)) as (rs & st' & Hall & Hwf' & Hc & Hids & Hs').
    { cbn [trace_log]. rewrite sum_traces_snoc, Hsum. simpl.
      rewrite Hst, Hred. simpl. eauto. }
    exists (res :: rs), st'. cbn [process_all]. unfold bind at 1.
    rewrite Hrun. unfold bind at 1. rewrite Hall.
    split; [reflexivity|]. split; [exact Hwf'|].
    cbn [interception_count] in Hc, Hids. simpl.
    split; [lia|]. split; [|exact Hs'].
    rewrite Hid, Hids. by rewrite (Nat.add_1_r (interception_count st + 1)).
Qed.

Lemma get_statistics_totals st d :
  sum_traces (0, 0)%Z (trace_log st) = Some (0%Z, d) ->
  total_interceptions <$> get_statistics st = Some (interception_count st)
  /\ total_redactions <$> get_statistics st = Some 0%Z.
Proof. intros H. unfold get_statistics. by rewrite H. Qed.

Lemma seq_sorted n : forall j, StronglySorted lt (seq j n).
Proof.
  induction n as [|n IH]; intros j; simpl; constructor; [apply IH|].
  apply Forall_forall. intros i Hi.
  apply list_elem_of_In, in_seq in Hi. lia.
Qed.

#[local] Instance make_trace_id_Inj : Inj (=) (=) make_trace_id.
Proof. intros n m. apply make_trace_id_inj. Qed.

(** C7. [N] calls of [process_with_trace] in sequence on a fresh
    interceptor all return, and return the ids TRACE-0001, TRACE-0002,
    ... in that order: the id of the [i]-th call is the zero-padded
    number [i]. Those ids are pairwise different (the numbers being
    strictly increasing and the formatting one-to-one), and afterwards
    [get_statistics] reports [N] interceptions. For three calls the ids
    are TRACE-0001, TRACE-0002, TRACE-0003. *)
Theorem trace_ids_sequential (contents : list text) :
  (exists rs st',
      process_all now contents init = (Some rs, st')
      /\ map res_trace_id rs
         = map make_trace_id (seq 1 (length contents))
      /\ StronglySorted lt (seq 1 (length contents))
      /\ NoDup (map res_trace_id rs)
      /\ total_interceptions <$> get_statistics st'
         = Some (length contents))
  /\ (forall c1 c2 c3 : text,
        exists rs st',
          process_all now [c1; c2; c3] init = (Some rs, st')
          /\ map res_trace_id rs
             = ["TRACE-0001"; "TRACE-0002"; "TRACE-0003"]%string
          /\ total_interceptions <$> get_statistics st' = Some 3).
Proof.
  assert (forall cs, exists rs st',
             process_all now cs init = (Some rs, st')
             /\ map res_trace_id rs = map make_trace_id (seq 1 (length cs))
             /\ total_interceptions <$> get_statistics st'
                = Some (length cs)) as Hgen.
  { intros cs.
    destruct (process_all_run cs init wf_init) as (rs & st' & H & _ & Hc & Hids & d & Hd);
      [by exists 0%Z|].
    exists rs, st'. split; [exact H|]. split; [exact Hids|].
    apply get_statistics_totals in Hd as [-> _]. by rewrite Hc. }
  split.
  - destruct (Hgen contents) as (rs & st' & H & Hids & Hn).
    exists rs, st'. split; [exact H|]. split; [exact Hids|].
    split; [|split; [|exact Hn]].
    + apply seq_sorted.
    + rewrite Hids. apply (NoDup_fmap_2 make_trace_id), NoDup_seq.
  - intros c1 c2 c3. destruct (Hgen [c1; c2; c3]) as (rs & st' & H & Hids & Hn).
    exists rs, st'. split; [exact H|]. split; [|exact Hn].
    rewrite Hids. vm_compute. reflexivity.
Qed.

End Runs.

Lemma monotone_of_nat : monotone Z.of_nat.
Proof. intros i j H. lia. Qed.

Lemma process_with_trace_completes_witness :
  wf init /\ monotone Z.of_nat
  /\ exists res st' t,
       process_with_trace Z.of_nat (txt "Hello world") init = (Some res, st')
       /\ get_trace_by_id st' (res_trace_id res) = Some t
       /\ map e_type (events t)
          = ["AGENT_READ"; "ARCHESTRA_INTERCEPT"; "PHANTOM_REDACT";
             "SAFE_DATA_DELIVERED"]%string
       /\ length (events t) = 4
       /\ status t = "completed"%string
       /\ exists t_end,
            end_time t = Some t_end
            /\ duration t = Some (t_end - start_time t)%Z
            /\ (monotone Z.of_nat -> (start_time t <= t_end)%Z).
Proof.
  assert (wf init) as H1 by reflexivity.
  assert (monotone Z.of_nat) as H2 by (intros i j H; lia).
  split; [exact H1|]. split; [exact H2|].
  exact (process_with_trace_completes Z.of_nat (txt "Hello world") init H1).
Defined.

(** C6, as the claim has it, fails: nothing in the code keeps the end
    time from being earlier than the start time. Both are readings of
    [time.time()]; when the clock is set back between them,
    [process_with_trace] still returns and its trace is completed with
    its four events, but its end time is before its start time and its
    duration is negative. *)
Lemma process_with_trace_clock_set_back :
  wf init
  /\ exists res st' t,
       process_with_trace clock_set_back (txt "Hello world") init
       = (Some res, st')
       /\ get_trace_by_id st' (res_trace_id res) = Some t
       /\ map e_type (events t)
          = ["AGENT_READ"; "ARCHESTRA_INTERCEPT"; "PHANTOM_REDACT";
             "SAFE_DATA_DELIVERED"]%string
       /\ status t = "completed"%string
       /\ start_time t = 3600%Z
       /\ end_time t = Some 9%Z
       /\ duration t = Some (-3591)%Z
       /\ exists t_end, end_time t = Some t_end /\ (t_end < start_time t)%Z.
Proof.
  split; [reflexivity|].
  destruct (process_with_trace_run clock_set_back (txt "Hello world") init
              wf_init)
    as (res & t & Hrun & Hid & _ & _ & _ & Ht & Hev & Hst & Hs & He & Hd & _).
  eexists res, _, t. split; [exact Hrun|].
  split.
  { unfold get_trace_by_id. cbn [trace_log]. rewrite Hid.
    apply find_last; [apply wf_fresh, wf_init | done]. }
  split; [exact Hev|]. split; [exact Hst|].
  split; [exact Hs|]. split; [exact He|]. split; [exact Hd|].
  exists 9%Z. split; [exact He|]. rewrite Hs. reflexivity.
Qed.


(** C1: the code misses the claim. [process_with_trace] records the
    redaction count of an interception under the key [redactions_made]
    of its PHANTOM_REDACT event, [get_statistics] sums the key
    [redactions]: after any sequence of [process_with_trace] calls on a
    fresh interceptor [total_redactions] is 0, although, for a document
    holding a password, the completed trace records one redaction. *)
Theorem statistics_miss_recorded_redactions :
  (forall (now : nat -> Z) (contents : list text),
      exists rs st',
        process_all now contents init = (Some rs, st')
        /\ total_redactions <$> get_statistics st' = Some 0%Z)
  /\ (fun res => PhantomRedactor.total_redactions (redaction_summary res))
       <$> password_run.1 = Some 1
  /\ map (fun t =>
            (status t,
             map (fun e => (e_type e, e_data e !! "redactions_made"%string,
                            e_data e !! "redactions"%string))
                 (events t)))
         (trace_log password_run.2)
     = [("completed",
         [("AGENT_READ", None, None);
          ("ARCHESTRA_INTERCEPT", None, None);
          ("PHANTOM_REDACT", Some (VInt 1), None);
          ("SAFE_DATA_DELIVERED", None, None)])]%string
  /\ total_redactions <$> get_statistics password_run.2 = Some 0%Z.
Proof.
  split; [|by vm_compute].
  intros now contents.
  destruct (process_all_run now contents init wf_init)
    as (rs & st' & H & _ & _ & _ & d & Hd); [by exists 0%Z|].
  exists rs, st'. split; [exact H|].
  by apply get_statistics_totals in Hd as [_ ->].
Qed.

(** ** History *)

Lemma get_trace_history_positive st (limit : Z) :
  (0 < limit)%Z ->
  get_trace_history st limit
  = drop (length (trace_log st) - Z.to_nat limit) (trace_log st)
  /\ length (get_trace_history st limit)
     = Nat.min (Z.to_nat limit) (length (trace_log st)).
Proof.
  intros Hl. unfold get_trace_history, slice_from.
  assert ((- limit <? 0)%Z = true) as -> by (apply Z.ltb_lt; lia).
  assert (Z.to_nat (Z.max (- limit + Z.of_nat (length (trace_log st))) 0)
          = length (trace_log st) - Z.to_nat limit) as -> by lia.
  split; [done|]. rewrite length_drop. lia.
Qed.

(** C3: the code misses the claim at limit 0. [trace_log[-0:]] is the
    whole log, so [get_trace_history(0)] returns every trace instead of
    none: after one interception it returns one trace. *)
Theorem get_trace_history_zero_returns_all :
  (forall st : interceptor, get_trace_history st 0 = trace_log st)
  /\ length (trace_log password_run.2) = 1
  /\ length (get_trace_history password_run.2 0) = 1.
Proof.
  split; [|split].
  - intros st. unfold get_trace_history, slice_from.
    change (- 0 <? 0)%Z with false. cbv iota.
    by replace (Z.to_nat (Z.min (- 0) (Z.of_nat (length (trace_log st)))))
      with 0 by lia.
  - by vm_compute.
  - by vm_compute.
Qed.

End ArchestraFacts.

(* ===================================================================== *)
(** * More about detection *)
(* ===================================================================== *)

Module DetectionFacts.
Import Re ReFacts ReBounds Inspector InspectorFacts InspectorSummary RedactorReport.

(** ** Every span of [finditer] is a match *)

Lemma finditer_from_sound ic r s : forall prev pos skip a b,
  In (a, b) (finditer_from ic r prev s pos skip) ->
  exists pre w post,
    s = pre ++ w ++ post /\ a = pos + length pre /\ b = a + length w
    /\ lang ic r (last_of prev pre) w post.
Proof.
  assert (forall prev s pos n a b,
             match_here ic r prev s = Some n -> (a, b) = (pos, pos + n) ->
             exists pre w post,
               s = pre ++ w ++ post /\ a = pos + length pre
               /\ b = a + length w /\ lang ic r (last_of prev pre) w post)
    as Hhere.
  { intros prev s0 pos n a b Hm [= -> ->].
    apply match_here_sound in Hm as (w & s' & -> & HL & ->).
    exists [], w, s'. simpl. rewrite Nat.add_0_r. by repeat split. }
  assert (forall c prev s' pos a b,
             (exists pre w post,
                 s' = pre ++ w ++ post /\ a = S pos + length pre
                 /\ b = a + length w /\ lang ic r (last_of (Some c) pre) w post) ->
             exists pre w post,
               c :: s' = pre ++ w ++ post /\ a = pos + length pre
               /\ b = a + length w /\ lang ic r (last_of prev pre) w post)
    as Hnext.
  { intros c prev s' pos a b (pre & w & post & -> & -> & -> & HL).
    exists (c :: pre), w, post. simpl. repeat split; [lia | done]. }
  induction s as [|c s IH]; intros prev pos skip a b Hin.
  - destruct skip; simpl in Hin; [|done].
    destruct (match_here ic r prev []) as [n|] eqn:Hm; [|done].
    destruct Hin as [Hin|[]]. by apply (Hhere prev [] pos n).
  - destruct skip as [|skip]; simpl in Hin.
    + destruct (match_here ic r prev (c :: s)) as [n|] eqn:Hm.
      * destruct Hin as [Hin|Hin]; [by apply (Hhere prev (c :: s) pos n)|].
        apply Hnext. by apply IH in Hin.
      * apply Hnext. by apply IH in Hin.
    + apply Hnext. by apply IH in Hin.
Qed.

(** ** The spans of [finditer] follow one another *)

Lemma finditer_from_sorted ic r s : forall prev pos skip,
  Forall (fun x => pos + skip <= x.1) (finditer_from ic r prev s pos skip)
  /\ StronglySorted (fun x y => x.2 <= y.1 /\ x.1 < y.1)
       (finditer_from ic r prev s pos skip).
Proof.
  induction s as [|c s IH]; intros prev pos skip.
  - destruct skip; simpl; [|by split; constructor].
    destruct (match_here ic r prev []); split; repeat constructor.
    simpl. lia.
  - destruct skip as [|skip]; simpl.
    + destruct (match_here ic r prev (c :: s)) as [n|].
      * destruct (IH (Some c) (S pos) (pred n)) as [Hlo Hs]. split.
        -- constructor; [simpl; lia|].
           eapply Forall_impl; [exact Hlo|]. simpl. intros; lia.
        -- constructor; [exact Hs|].
           eapply Forall_impl; [exact Hlo|]. simpl. intros; lia.
      * destruct (IH (Some c) (S pos) 0) as [Hlo Hs]. split; [|exact Hs].
        eapply Forall_impl; [exact Hlo|]. simpl. intros; lia.
    + destruct (IH (Some c) (S pos) skip) as [Hlo Hs]. split; [|exact Hs].
      eapply Forall_impl; [exact Hlo|]. simpl. intros; lia.
Qed.

(** ** Bounds on the length of a word *)

Lemma reps_min_len (L : option ascii -> text -> text -> Prop) m hi :
  (forall prev w rest, L prev w rest -> m <= length w) ->
  forall lo prev w rest, reps L hi lo prev w rest -> lo * m <= length w.
Proof.
  intros HL. induction hi as [|hi IH]; intros lo prev w rest H; simpl in H.
  - destruct H as [[-> ->]|[]]. simpl. lia.
  - destruct H as [[-> ->]|(w1 & w2 & -> & H1 & H2)]; [simpl; lia|].
    apply HL in H1. apply IH in H2. rewrite length_app.
    destruct lo; simpl in *; lia.
Qed.

Lemma lang_min_len ic r : forall prev w rest,
  lang ic r prev w rest -> min_len r <= length w.
Proof.
  induction r as [| |neg cs|r1 IH1 r2 IH2|r1 IH1 r2 IH2|r1 IH1 lo hi|neg cs lo];
    intros prev w rest H; simpl in *.
  - by subst.
  - by destruct H as [-> _].
  - by destruct H as (c & -> & _).
  - destruct H as (w1 & w2 & -> & H1 & H2).
    apply IH1 in H1. apply IH2 in H2. rewrite length_app. lia.
  - destruct H as [H|H]; [apply IH1 in H | apply IH2 in H]; lia.
  - by apply (reps_min_len _ _ hi IH1) in H.
  - by destruct H.
Qed.

Lemma reps_max_len (L : option ascii -> text -> text -> Prop) m hi :
  (forall prev w rest, L prev w rest -> length w <= m) ->
  forall lo prev w rest, reps L hi lo prev w rest -> length w <= hi * m.
Proof.
  intros HL. induction hi as [|hi IH]; intros lo prev w rest H; simpl in H.
  - by destruct H as [[-> ->]|[]].
  - destruct H as [[-> ->]|(w1 & w2 & -> & H1 & H2)]; [simpl; lia|].
    apply HL in H1. apply IH in H2. rewrite length_app. simpl. lia.
Qed.

Lemma lang_max_len ic r : forall m prev w rest,
  max_len r = Some m -> lang ic r prev w rest -> length w <= m.
Proof.
  induction r as [| |neg cs|r1 IH1 r2 IH2|r1 IH1 r2 IH2|r1 IH1 lo hi|neg cs lo];
    intros m prev w rest Hm H; simpl in *.
  - injection Hm as <-. by subst.
  - injection Hm as <-. by destruct H as [-> _].
  - injection Hm as <-. by destruct H as (c & -> & _).
  - destruct (max_len r1) as [a|], (max_len r2) as [b|]; try done.
    injection Hm as <-. destruct H as (w1 & w2 & -> & H1 & H2).
    apply (IH1 a) in H1; [|done]. apply (IH2 b) in H2; [|done].
    rewrite length_app. lia.
  - destruct (max_len r1) as [a|], (max_len r2) as [b|]; try done.
    injection Hm as <-.
    destruct H as [H|H]; [apply (IH1 a) in H | apply (IH2 b) in H]; try done; lia.
  - destruct (max_len r1) as [a|]; [|done]. injection Hm as <-.
    apply (reps_max_len _ a hi) in H; [done|]. intros p w' r' Hw.
    by apply (IH1 a p w' r').
  - done.
Qed.

(** ** Where a finding comes from *)

Lemma findings_of_inv t name r f :
  In f (findings_of t (name, r)) ->
  f_type f = name /\ f_severity f = _get_severity name
  /\ exists pre w post,
       t = pre ++ w ++ post
       /\ f_position f = (length pre, length pre + length w)
       /\ f_value f = w
       /\ lang true r (last_of None pre) w post.
Proof.
  unfold findings_of. intros Hf. apply in_map_iff in Hf as ([a b] & <- & Hin).
  cbn [f_type f_severity f_position f_value fst snd].
  split; [done|]. split; [done|].
  apply finditer_from_sound in Hin as (pre & w & post & -> & -> & -> & HL).
  exists pre, w, post. simpl. repeat split; [|done].
  apply slice_middle.
Qed.

Lemma inspect_text_inv t f :
  In f (inspect_text t) ->
  exists name r, In (name, r) PATTERNS /\ In f (findings_of t (name, r)).
Proof.
  unfold inspect_text. intros Hf. apply in_concat in Hf as (l & Hl & Hf).
  apply in_map_iff in Hl as ([name r] & <- & Hp). by exists name, r.
Qed.

Lemma patterns_min_len :
  Forall (fun p : string * regex => 4 <= min_len p.2) PATTERNS.
Proof. repeat constructor; vm_compute; lia. Qed.

Lemma finding_span (t : text) (f : finding) :
  In f (inspect_text t) ->
  (f_position f).1 < (f_position f).2
  /\ (f_position f).2 <= length t
  /\ f_value f = slice t (f_position f).1 (f_position f).2
  /\ length (f_value f) = (f_position f).2 - (f_position f).1.
Proof.
  intros Hf. apply inspect_text_inv in Hf as (name & r & Hp & Hf).
  pose proof patterns_min_len as Hmin. rewrite Forall_forall in Hmin.
  apply list_elem_of_In, Hmin in Hp. simpl in Hp.
  apply findings_of_inv in Hf as (_ & _ & pre & w & post & -> & -> & -> & HL).
  apply lang_min_len in HL. simpl. rewrite slice_middle, !length_app.
  repeat split; lia.
Qed.

(** X1. Every finding of [inspect_text] has a non-empty span that lies
    in the text, and its value is the text of that span. *)
Theorem finding_span_in_text (t : text) (f : finding) :
  In f (inspect_text t) ->
  (f_position f).1 < (f_position f).2
  /\ (f_position f).2 <= length t
  /\ f_value f = slice t (f_position f).1 (f_position f).2
  /\ length (f_value f) = (f_position f).2 - (f_position f).1.
Proof.
  intros Hf. apply inspect_text_inv in Hf as (name & r & Hp & Hf).
  pose proof patterns_min_len as Hmin. rewrite Forall_forall in Hmin.
  apply list_elem_of_In, Hmin in Hp. simpl in Hp.
  apply findings_of_inv in Hf as (_ & _ & pre & w & post & -> & -> & -> & HL).
  apply lang_min_len in HL. simpl. rewrite slice_middle, !length_app.
  repeat split; lia.
Qed.

Lemma finding_span_in_text_witness :
  In masking_finding (inspect_text PhantomRedactor.masking_text)
  /\ ((f_position masking_finding).1 < (f_position masking_finding).2
      /\ (f_position masking_finding).2 <= length PhantomRedactor.masking_text
      /\ f_value masking_finding
         = slice PhantomRedactor.masking_text (f_position masking_finding).1
             (f_position masking_finding).2
      /\ length (f_value masking_finding)
         = (f_position masking_finding).2 - (f_position masking_finding).1).
Proof.
  assert (In masking_finding (inspect_text PhantomRedactor.masking_text)) as H
    by (vm_compute; left; reflexivity).
  split; [exact H|].
  exact (finding_span_in_text PhantomRedactor.masking_text masking_finding H).
Defined.

(** ** How long a finding is *)

Lemma finding_length_bounds t name r f lo :
  In f (findings_of t (name, r)) -> min_len r = lo ->
  lo <= length (f_value f)
  /\ forall hi, max_len r = Some hi -> length (f_value f) <= hi.
Proof.
  intros Hf <-.
  apply findings_of_inv in Hf as (_ & _ & pre & w & post & _ & _ & -> & HL).
  split; [by apply lang_min_len in HL|].
  intros hi Hhi. by apply (lang_max_len true r hi) in HL.
Qed.

(** X2. The length of the value of a finding is bounded by its type: a
    credit_card is 16 to 19 characters long, an ssn exactly 11, an
    account_number and a routing_number at least 12, an email at least
    6, a password at least 4 and an api_key at least 27; and there is
    no other type. *)
Theorem finding_value_lengths (t : text) (f : finding) :
  In f (inspect_text t) ->
  (f_type f = "credit_card"%string
   /\ 16 <= length (f_value f) <= 19)
  \/ (f_type f = "ssn"%string /\ length (f_value f) = 11)
  \/ (f_type f = "account_number"%string /\ 12 <= length (f_value f))
  \/ (f_type f = "routing_number"%string /\ 12 <= length (f_value f))
  \/ (f_type f = "email"%string /\ 6 <= length (f_value f))
  \/ (f_type f = "password"%string /\ 4 <= length (f_value f))
  \/ (f_type f = "api_key"%string /\ 27 <= length (f_value f)).
Proof.
  intros Hf. apply inspect_text_inv in Hf as (name & r & Hp & Hf).
  pose proof (findings_of_inv _ _ _ _ Hf) as (Hty & _).
  simpl in Hp.
  destruct Hp as [[= <- <-]|[[= <- <-]|[[= <- <-]|[[= <- <-]|[[= <- <-]|
                 [[= <- <-]|[[= <- <-]|[]]]]]]]];
    (eapply finding_length_bounds in Hf as [Hlo Hhi];
     [|vm_compute; reflexivity]).
  - left. split; [done|]. split; [done|]. by apply Hhi.
  - right; left. split; [done|].
    assert (length (f_value f) <= 11) by (by apply Hhi). lia.
  - do 2 right; left. by split.
  - do 3 right; left. by split.
  - do 4 right; left. by split.
  - do 5 right; left. by split.
  - do 6 right. by split.
Qed.

Lemma finding_value_lengths_witness :
  In masking_finding (inspect_text PhantomRedactor.masking_text)
  /\ ((f_type masking_finding = "credit_card"%string
       /\ 16 <= length (f_value masking_finding) <= 19)
      \/ (f_type masking_finding = "ssn"%string
          /\ length (f_value masking_finding) = 11)
      \/ (f_type masking_finding = "account_number"%string
          /\ 12 <= length (f_value masking_finding))
      \/ (f_type masking_finding = "routing_number"%string
          /\ 12 <= length (f_value masking_finding))
      \/ (f_type masking_finding = "email"%string
          /\ 6 <= length (f_value masking_finding))
      \/ (f_type masking_finding = "password"%string
          /\ 4 <= length (f_value masking_finding))
      \/ (f_type masking_finding = "api_key"%string
          /\ 27 <= length (f_value masking_finding))).
Proof.
  assert (In masking_finding (inspect_text PhantomRedactor.masking_text)) as H
    by (vm_compute; left; reflexivity).
  split; [exact H|].
  exact (finding_value_lengths PhantomRedactor.masking_text masking_finding H).
Defined.

(** ** A credit-card finding holds sixteen digits *)

Lemma no_digit_in_sep ic prev w rest :
  lang ic sep prev w rest -> List.filter is_digit w = [].
Proof.
  intros H. apply sep_word in H as [-> | (c & -> & Hc)]; [done|]. simpl.
  destruct (is_digit c) eqn:E; [|done].
  apply digit_not_sep in E. congruence.
Qed.

Lemma digits_in_block ic prev w rest :
  lang ic block prev w rest -> length (List.filter is_digit w) = 4.
Proof.
  intros H. apply block_digits in H as [Hlen Hall].
  rewrite forallb_filter_id by done. done.
Qed.

Lemma digits_in_group ic prev w rest :
  lang ic group prev w rest -> length (List.filter is_digit w) = 4.
Proof.
  intros (b & s & -> & Hb & Hs).
  apply digits_in_block in Hb. apply no_digit_in_sep in Hs.
  rewrite List.filter_app, length_app, Hs, Hb. done.
Qed.

Lemma digits_in_groups ic n : forall prev w rest,
  reps (lang ic group) n n prev w rest ->
  length (List.filter is_digit w) = 4 * n.
Proof.
  induction n as [|n IH]; intros prev w rest H; simpl in H.
  - by destruct H as [[_ ->] | []].
  - destruct H as [[? _] | (w1 & w2 & -> & H1 & H2)]; [done|].
    apply IH in H2.
    pose proof (digits_in_group ic prev w1 (w2 ++ rest) H1) as Hg.
    rewrite List.filter_app, length_app, Hg, H2. lia.
Qed.

(** X3. Every credit_card finding holds exactly sixteen digits: a run
    of fewer or more digits is never reported as a credit card. *)
Theorem credit_card_finding_has_16_digits (t : text) (f : finding) :
  In f (inspect_text t) -> f_type f = "credit_card"%string ->
  length (List.filter is_digit (f_value f)) = 16.
Proof.
  intros Hf Hty. apply inspect_text_inv in Hf as (name & r & Hp & Hf).
  pose proof (findings_of_inv _ _ _ _ Hf) as (Hname & _ & pre & w & post & _ & _
                                               & -> & HL).
  rewrite Hty in Hname. subst name. simpl in Hp.
  destruct Hp as [[= <-]|[[=]|[[=]|[[=]|[[=]|[[=]|[[=]|[]]]]]]]].
  rewrite credit_card_eq in HL.
  destruct HL as (w1 & w2 & -> & [-> _] & w3 & w4 & -> & H3 & w5 & w6 & -> & H5
                  & [-> _]).
  apply digits_in_groups in H3. apply digits_in_block in H5.
  simpl. rewrite app_nil_r, List.filter_app, length_app. lia.
Qed.

Lemma credit_card_finding_has_16_digits_witness :
  In {| f_type := "credit_card"; f_value := txt "1111-2222-3333-4444";
        f_position := (6, 25); f_severity := "HIGH" |}
     (inspect_text (txt "Card: 1111-2222-3333-4444, Pass: Secret123"))
  /\ length (List.filter is_digit (txt "1111-2222-3333-4444")) = 16.
Proof.
  assert (In {| f_type := "credit_card"; f_value := txt "1111-2222-3333-4444";
                f_position := (6, 25); f_severity := "HIGH" |}
             (inspect_text (txt "Card: 1111-2222-3333-4444, Pass: Secret123")))
    as H by (vm_compute; left; reflexivity).
  split; [exact H|].
  exact (credit_card_finding_has_16_digits _ _ H eq_refl).
Defined.

(** ** Findings of one type do not overlap *)

Lemma sorted_apart {A} (R : A -> A -> Prop) l x y :
  StronglySorted R l -> In x l -> In y l -> x = y \/ R x y \/ R y x.
Proof.
  induction 1 as [|a l Hs IH Ha]; intros Hx Hy; [done|].
  rewrite Forall_forall in Ha.
  destruct Hx as [->|Hx], Hy as [->|Hy]; auto.
  - right; left. by apply Ha, list_elem_of_In.
  - right; right. by apply Ha, list_elem_of_In.
Qed.

Lemma patterns_names_nodup : NoDup (map fst PATTERNS).
Proof. apply (bool_decide_unpack _). by vm_compute. Qed.

Lemma assoc_functional {A} (l : list (string * A)) k a b :
  NoDup (map fst l) -> In (k, a) l -> In (k, b) l -> a = b.
Proof.
  induction l as [|[k' c] l IH]; simpl; intros Hnd Ha Hb; [done|].
  apply NoDup_cons in Hnd as [Hk Hnd].
  assert (forall x, In (k', x) l -> False) as Hno.
  { intros x Hx. apply Hk, list_elem_of_In, in_map_iff. by exists (k', x). }
  destruct Ha as [Ha|Ha], Hb as [Hb|Hb].
  - congruence.
  - injection Ha as -> ->. destruct (Hno b Hb).
  - injection Hb as -> ->. destruct (Hno a Ha).
  - by apply IH.
Qed.

(** X4. Two findings of the same type never overlap: one ends where
    the other starts, or earlier. (Findings of different types may
    overlap.) *)
Theorem same_type_findings_apart (t : text) (f g : finding) :
  In f (inspect_text t) -> In g (inspect_text t) -> f_type f = f_type g ->
  f = g
  \/ (f_position f).2 <= (f_position g).1
  \/ (f_position g).2 <= (f_position f).1.
Proof.
  intros Hf Hg Hty.
  apply inspect_text_inv in Hf as (n1 & r1 & Hp1 & Hf).
  apply inspect_text_inv in Hg as (n2 & r2 & Hp2 & Hg).
  pose proof (findings_of_inv _ _ _ _ Hf) as (H1 & _).
  pose proof (findings_of_inv _ _ _ _ Hg) as (H2 & _).
  assert (n1 = n2) as <- by congruence.
  assert (r1 = r2) as <-
    by exact (assoc_functional PATTERNS n1 r1 r2 patterns_names_nodup Hp1 Hp2).
  unfold findings_of in Hf, Hg.
  apply in_map_iff in Hf as (x & <- & Hx).
  apply in_map_iff in Hg as (y & <- & Hy). simpl.
  destruct (finditer_from_sorted true r1 t None 0 0) as [_ Hs].
  destruct (sorted_apart _ _ x y Hs Hx Hy) as [->|[[H _]|[H _]]]; auto.
Qed.

Lemma same_type_findings_apart_witness :
  In first_card (inspect_text two_cards)
  /\ In second_card (inspect_text two_cards)
  /\ f_type first_card = f_type second_card
  /\ (first_card = second_card
      \/ (f_position first_card).2 <= (f_position second_card).1
      \/ (f_position second_card).2 <= (f_position first_card).1).
Proof.
  assert (In first_card (inspect_text two_cards)) as H1
    by (vm_compute; left; reflexivity).
  assert (In second_card (inspect_text two_cards)) as H2
    by (vm_compute; right; left; reflexivity).
  split; [exact H1|]. split; [exact H2|]. split; [reflexivity|].
  exact (same_type_findings_apart two_cards first_card second_card H1 H2
           eq_refl).
Defined.

(** ** [get_summary] *)

Lemma count_findings_lookup fs : forall (m : gmap string nat) name,
  count_findings m fs !! name
  = match count_type name fs with
    | 0 => m !! name
    | S n => Some (default 0 (m !! name) + S n)
    end.
Proof.
  induction fs as [|f fs IH]; intros m name; [done|].
  cbn [count_findings]. rewrite IH. unfold count_type. cbn [List.filter].
  destruct (String.eqb (f_type f) name) eqn:E.
  - apply String.eqb_eq in E as ->. rewrite lookup_insert_eq.
    cbn [length]. destruct (length _); cbn [default]; [done|].
    unfold id. f_equal. lia.
  - apply String.eqb_neq in E. by rewrite lookup_insert_ne.
Qed.

(** X5. [get_summary] counts the findings by type: a type that occurs
    [n > 0] times is mapped to [n], a type that does not occur is not a
    key of the summary. *)
Theorem get_summary_counts (findings : list finding) (name : string) :
  get_summary findings !! name
  = match count_type name findings with
    | 0 => None
    | S n => Some (S n)
    end.
Proof.
  unfold get_summary. rewrite count_findings_lookup, lookup_empty. done.
Qed.

End DetectionFacts.

(* ===================================================================== *)
(** * More about redaction *)
(* ===================================================================== *)

Module RedactionFacts.
Import Re Inspector PhantomRedactor RedactorFacts RedactorReport
  DetectionFacts.

(** ** The text of [redact_text] *)

Lemma redact_one_text pf acc f :
  (redact_one pf acc f).1 = rewrite_one pf acc.1 f.
Proof.
  destruct acc as [t log]. unfold redact_one, rewrite_one.
  by destruct (f_position f).
Qed.

Lemma foldl_redact_text pf fs : forall acc,
  (foldl (redact_one pf) acc fs).1 = foldl (rewrite_one pf) acc.1 fs.
Proof.
  induction fs as [|f fs IH]; intros acc; simpl; [done|].
  by rewrite IH, redact_one_text.
Qed.

Lemma redact_text_text t pf :
  (redact_text t pf).1
  = foldl (rewrite_one pf) t (sorted_desc (inspect_text t)).
Proof. unfold redact_text, redact_findings. by rewrite foldl_redact_text. Qed.

(** The findings of a text lie in it. *)
Lemma inspect_text_spans_in t :
  Forall (spans_in (length t)) (inspect_text t).
Proof.
  apply Forall_forall. intros f Hf.
  apply list_elem_of_In, finding_span in Hf as (H1 & H2 & _ & H4).
  unfold spans_in. repeat split; [lia|done|done].
Qed.

Lemma sorted_desc_spans_in t :
  Forall (spans_in (length t)) (sorted_desc (inspect_text t)).
Proof.
  rewrite (sorted_desc_perm (inspect_text t)). apply inspect_text_spans_in.
Qed.

(** ** The order of the rewrites *)

Lemma insert_desc_sorted x l :
  StronglySorted (fun a b => (f_position b).1 <= (f_position a).1) l ->
  StronglySorted (fun a b => (f_position b).1 <= (f_position a).1)
    (insert_desc x l).
Proof.
  induction 1 as [|y l Hs IH Hy]; simpl.
  - repeat constructor.
  - destruct ((f_position x).1 <? (f_position y).1) eqn:E.
    + apply Nat.ltb_lt in E. constructor; [exact IH|].
      rewrite (insert_desc_perm x l). constructor; [lia|exact Hy].
    + apply Nat.ltb_ge in E. constructor; [by constructor|].
      constructor; [done|].
      eapply Forall_impl; [exact Hy|]. simpl. intros; lia.
Qed.

Lemma sorted_desc_sorted l :
  StronglySorted (fun a b => (f_position b).1 <= (f_position a).1)
    (sorted_desc l).
Proof.
  induction l as [|x l IH]; simpl; [constructor|].
  by apply insert_desc_sorted.
Qed.

(** ** One rewrite *)

Lemma redacted_value_length f :
  length (redacted_value true f) = length (f_value f).
Proof.
  unfold redacted_value. destruct (4 <? length (f_value f)) eqn:E.
  - apply Nat.ltb_lt in E.
    rewrite length_app, length_take, length_replicate. lia.
  - by rewrite length_replicate.
Qed.

Lemma redacted_value_star f j :
  2 <= j < length (f_value f) ->
  redacted_value true f !! j = Some "*"%char.
Proof.
  intros Hj. unfold redacted_value.
  destruct (4 <? length (f_value f)) eqn:E.
  - rewrite lookup_app_r; rewrite length_take; [|lia].
    apply lookup_replicate_2. lia.
  - apply lookup_replicate_2. lia.
Qed.

Lemma rewrite_one_length t f :
  spans_in (length t) f -> length (rewrite_one true t f) = length t.
Proof.
  intros (H1 & H2 & H3). unfold rewrite_one.
  rewrite !length_app, length_take, length_drop, redacted_value_length. lia.
Qed.

Lemma rewrite_one_inside t f i :
  spans_in (length t) f -> covers f i ->
  rewrite_one true t f !! i
  = redacted_value true f !! (i - (f_position f).1).
Proof.
  intros (H1 & H2 & H3) [Ha Hb]. unfold rewrite_one.
  rewrite lookup_app_r; rewrite length_take; [|lia].
  replace (Nat.min (f_position f).1 (length t)) with (f_position f).1 by lia.
  apply lookup_app_l. rewrite redacted_value_length. lia.
Qed.

Lemma rewrite_one_outside t f i :
  spans_in (length t) f -> ~ covers f i ->
  rewrite_one true t f !! i = t !! i.
Proof.
  intros (H1 & H2 & H3) Hout. unfold covers in Hout. unfold rewrite_one.
  destruct (decide (i < (f_position f).1)) as [Hi|Hi].
  - rewrite lookup_app_l by (rewrite length_take; lia).
    by apply lookup_take_lt.
  - rewrite lookup_app_r; rewrite length_take; [|lia].
    rewrite lookup_app_r; rewrite redacted_value_length; [|lia].
    rewrite lookup_drop. f_equal. lia.
Qed.

Lemma foldl_rewrite_length fs : forall t,
  Forall (spans_in (length t)) fs ->
  length (foldl (rewrite_one true) t fs) = length t.
Proof.
  induction fs as [|f fs IH]; intros t Hall; [done|].
  inversion Hall as [|? ? Hf Hfs]; subst. simpl.
  rewrite IH; rewrite rewrite_one_length; done.
Qed.

Lemma redact_text_length (t : text) :
  length (redact_text t true).1 = length t.
Proof.
  rewrite redact_text_text. apply foldl_rewrite_length, sorted_desc_spans_in.
Qed.

Lemma redact_text_log_length (t : text) (pf : bool) :
  length (redact_text t pf).2 = length (inspect_text t).
Proof.
  by rewrite redact_text_log, length_map, (sorted_desc_perm (inspect_text t)).
Qed.

(** X6. With [preserve_format] true the redacted text is as long as
    the text, whatever the findings are, overlapping or not. *)
Theorem redact_text_keeps_length (t : text) :
  length (redact_text t true).1 = length t.
Proof.
  rewrite redact_text_text.
  apply foldl_rewrite_length, sorted_desc_spans_in.
Qed.

Lemma foldl_rewrite_outside fs i : forall t,
  Forall (spans_in (length t)) fs ->
  Forall (fun f => ~ covers f i) fs ->
  foldl (rewrite_one true) t fs !! i = t !! i.
Proof.
  induction fs as [|f fs IH]; intros t Hall Hout; [done|].
  inversion Hall as [|? ? Hf Hfs]; subst.
  inversion Hout as [|? ? Hfo Hfso]; subst. simpl.
  rewrite IH; [by apply rewrite_one_outside| |done].
  by rewrite rewrite_one_length.
Qed.

(** X7. With [preserve_format] true a character that lies in the span
    of no finding is left where it is, unchanged. *)
Theorem redact_text_outside_unchanged (t : text) (i : nat) :
  (forall f, In f (inspect_text t) -> ~ covers f i) ->
  (redact_text t true).1 !! i = t !! i.
Proof.
  intros Hout. rewrite redact_text_text.
  apply foldl_rewrite_outside; [apply sorted_desc_spans_in|].
  apply Forall_forall. intros f Hf. apply Hout, list_elem_of_In.
  by rewrite <- (sorted_desc_perm (inspect_text t)).
Qed.

Lemma foldl_rewrite_star fs i : forall t,
  Forall (spans_in (length t)) fs ->
  Forall (fun g => covers g i -> (f_position g).1 + 2 <= i) fs ->
  t !! i = Some "*"%char ->
  foldl (rewrite_one true) t fs !! i = Some "*"%char.
Proof.
  induction fs as [|f fs IH]; intros t Hall Hfar Hi; [done|].
  inversion Hall as [|? ? Hf Hfs]; subst.
  inversion Hfar as [|? ? Hff Hffs]; subst. simpl.
  apply IH; [by rewrite rewrite_one_length|done|].
  destruct (decide (covers f i)) as [Hc|Hc].
  - rewrite rewrite_one_inside by done.
    destruct Hf as (H1 & H2 & H3). destruct Hc as [Ha Hb].
    apply redacted_value_star. specialize (Hff (conj Ha Hb)). lia.
  - by rewrite rewrite_one_outside.
Qed.

Lemma foldl_rewrite_masks fs : forall t f i,
  StronglySorted (fun a b => (f_position b).1 <= (f_position a).1) fs ->
  Forall (spans_in (length t)) fs ->
  In f fs -> (f_position f).1 + 2 <= i < (f_position f).2 ->
  foldl (rewrite_one true) t fs !! i = Some "*"%char.
Proof.
  induction fs as [|g fs IH]; intros t f i Hs Hall Hf Hi; [done|].
  inversion Hs as [|? ? Hs' Hg]; subst.
  inversion Hall as [|? ? Hgs Hfs]; subst. simpl.
  destruct Hf as [->|Hf].
  - apply foldl_rewrite_star; [by rewrite rewrite_one_length| |].
    + eapply Forall_impl; [exact Hg|]. simpl. intros h Hh _. lia.
    + rewrite rewrite_one_inside; [|done|unfold covers; lia].
      destruct Hgs as (H1 & H2 & H3). apply redacted_value_star. lia.
  - apply (IH _ f); try done. by rewrite rewrite_one_length.
Qed.

(** X8. With [preserve_format] true every character of a finding
    beyond its first two is a [*] in the redacted text, also where
    findings overlap. *)
Theorem redact_text_masks_findings (t : text) (f : finding) (i : nat) :
  In f (inspect_text t) ->
  (f_position f).1 + 2 <= i < (f_position f).2 ->
  (redact_text t true).1 !! i = Some "*"%char.
Proof.
  intros Hf Hi. rewrite redact_text_text.
  apply (foldl_rewrite_masks _ t f);
    [apply sorted_desc_sorted | apply sorted_desc_spans_in | | done].
  apply list_elem_of_In. rewrite (sorted_desc_perm (inspect_text t)).
  by apply list_elem_of_In.
Qed.

Lemma redact_text_outside_unchanged_witness :
  (forall f, In f (inspect_text greeting_text) -> ~ covers f 0)
  /\ (redact_text greeting_text true).1 !! 0 = greeting_text !! 0.
Proof.
  assert (forall f, In f (inspect_text greeting_text) -> ~ covers f 0) as H.
  { intros f Hf. vm_compute in Hf. destruct Hf as [<-|[]].
    unfold covers. simpl. lia. }
  split; [exact H|].
  exact (redact_text_outside_unchanged greeting_text 0 H).
Defined.

Lemma redact_text_masks_findings_witness :
  In masking_finding (inspect_text masking_text)
  /\ (f_position masking_finding).1 + 2 <= 5 < (f_position masking_finding).2
  /\ (redact_text masking_text true).1 !! 5 = Some "*"%char.
Proof.
  assert (In masking_finding (inspect_text masking_text)) as H1
    by (vm_compute; left; reflexivity).
  assert ((f_position masking_finding).1 + 2 <= 5
          < (f_position masking_finding).2) as H2 by (simpl; lia).
  split; [exact H1|]. split; [exact H2|].
  exact (redact_text_masks_findings masking_text masking_finding 5 H1 H2).
Defined.

(** ** The order of the log *)

(** X9. The log of [redact_text] lists the redactions in the order
    they were made: by descending start of the finding. *)
Theorem redaction_log_descending (t : text) (pf : bool) :
  StronglySorted (fun a b => (r_position b).1 <= (r_position a).1)
    (redact_text t pf).2.
Proof.
  rewrite redact_text_log.
  induction (sorted_desc_sorted (inspect_text t)) as [|f l Hs IH Hf]; simpl;
    constructor; [exact IH|].
  apply Forall_forall. intros r Hr.
  apply list_elem_of_In, in_map_iff in Hr as (g & <- & Hg).
  rewrite Forall_forall in Hf. simpl. by apply Hf, list_elem_of_In.
Qed.

(** ** Rewriting from the right is rewriting from the left *)

Lemma splice_to_snoc pf t f stop gs : forall cut,
  splice_to pf t cut (gs ++ [f]) stop
  = splice_to pf t cut gs (f_position f).1 ++ redacted_value pf f
      ++ slice t (f_position f).2 stop.
Proof.
  induction gs as [|g gs IH]; intros cut; simpl; [done|].
  by rewrite IH, <- !app_assoc.
Qed.

Lemma foldl_rewrite_splice pf t fs : forall stop tail,
  apart stop fs = true -> stop <= length t ->
  foldl (rewrite_one pf) (take stop t ++ tail) fs
  = splice_to pf t 0 (reverse fs) stop ++ tail.
Proof.
  induction fs as [|f fs IH]; intros stop tail Hap Hstop.
  - simpl. unfold slice. by rewrite drop_0, Nat.sub_0_r.
  - simpl in Hap. apply andb_true_iff in Hap as [Hap Hrest].
    apply andb_true_iff in Hap as [Hab Hb].
    apply Nat.leb_le in Hab, Hb.
    cbn [foldl]. unfold rewrite_one at 2.
    rewrite take_app_le by (rewrite length_take; lia).
    rewrite take_take, Nat.min_l by lia.
    rewrite drop_app_le by (rewrite length_take; lia).
    rewrite (IH (f_position f).1) by (done || lia).
    rewrite reverse_cons, splice_to_snoc, <- !app_assoc.
    do 2 f_equal. unfold slice. rewrite take_drop_commute.
    by replace ((f_position f).2 + (stop - (f_position f).2)) with stop by lia.
Qed.

(** X10. When no finding runs into the one rewritten before it,
    rewriting the findings one after the other from the right, as
    [redact_text] does, gives the text written from the left with each
    finding replaced by its redacted value: no offset is shifted, in
    either mode. *)
Theorem redact_text_position_safe (t : text) (pf : bool) :
  apart (length t) (sorted_desc (inspect_text t)) = true ->
  (redact_text t pf).1
  = splice pf t (reverse (sorted_desc (inspect_text t))).
Proof.
  intros Hap. rewrite redact_text_text. unfold splice.
  pose proof (foldl_rewrite_splice pf t _ (length t) [] Hap (le_n _)) as H.
  by rewrite take_ge, !app_nil_r in H.
Qed.

Lemma redact_text_position_safe_witness :
  apart (length detection_text) (sorted_desc (inspect_text detection_text))
  = true
  /\ (redact_text detection_text false).1
     = splice false detection_text
         (reverse (sorted_desc (inspect_text detection_text))).
Proof.
  assert (apart (length detection_text)
            (sorted_desc (inspect_text detection_text)) = true) as H
    by (vm_compute; reflexivity).
  split; [exact H|].
  exact (redact_text_position_safe detection_text false H).
Defined.

(** ** Markers *)

(** X11. With [preserve_format] false every entry of the log holds the
    marker of its type: the fallback [[REDACTED]] is never used. *)
Theorem full_markers_only (t : text) :
  Forall (fun r => REDACTION_MARKERS !! r_type r = Some (r_redacted r))
         (redact_text t false).2.
Proof.
  apply Forall_forall. intros r Hr.
  apply list_elem_of_In, redact_text_log_inv in Hr as (f & Hf & ->).
  apply inspect_text_inv in Hf as (name & re & Hp & Hf).
  apply findings_of_inv in Hf as (Hty & _).
  cbn [record_of r_type r_redacted]. unfold redacted_value. rewrite Hty.
  simpl in Hp.
  destruct Hp as [[= <- _]|[[= <- _]|[[= <- _]|[[= <- _]|[[= <- _]|
                 [[= <- _]|[[= <- _]|[]]]]]]]]; reflexivity.
Qed.

(** ** The summary *)

Lemma count_redactions_lookup l : forall s s',
  count_redactions s l = Some s' ->
  (forall name,
      by_type s' !! name
      = match length (List.filter (fun r => String.eqb (r_type r) name) l) with
        | 0 => by_type s !! name
        | S n => Some (default 0 (by_type s !! name) + S n)
        end)
  /\ (forall sev,
        by_severity s' !! sev
        = (fun n =>
             n + length (List.filter
                           (fun r => String.eqb (r_severity r) sev) l))
          <$> by_severity s !! sev).
Proof.
  induction l as [|r l IH]; intros s s' H; simpl in H.
  - injection H as <-. split; [done|]. intros sev. simpl.
    destruct (by_severity s !! sev); simpl; [f_equal; lia|done].
  - unfold count_redaction in H.
    destruct (by_severity s !! r_severity r) as [n|] eqn:Hn; [|done].
    apply IH in H as [Hty Hsev]. cbn [by_type by_severity] in *. split.
    + intros name. rewrite Hty. cbn [List.filter].
      destruct (String.eqb (r_type r) name) eqn:E.
      * apply String.eqb_eq in E as ->. rewrite lookup_insert_eq.
        cbn [length]. destruct (length _); cbn [default]; [done|].
        unfold id. f_equal. lia.
      * apply String.eqb_neq in E. by rewrite lookup_insert_ne.
    + intros sev. rewrite Hsev. cbn [List.filter].
      destruct (String.eqb (r_severity r) sev) eqn:E.
      * apply String.eqb_eq in E as <-. rewrite lookup_insert_eq, Hn.
        simpl. f_equal. lia.
      * apply String.eqb_neq in E. by rewrite lookup_insert_ne.
Qed.

Lemma create_summary_total (log : list redaction) (s : summary) :
  _create_summary log = Some s -> total_redactions s = length log.
Proof.
  unfold _create_summary. intros H.
  assert (forall l s0, count_redactions s0 l = Some s ->
            total_redactions s = total_redactions s0) as Htot.
  { clear. induction l as [|r l IH]; intros s0 H; simpl in H.
    - by injection H as <-.
    - unfold count_redaction in H.
      destruct (by_severity s0 !! r_severity r); [|done].
      by apply IH in H. }
  by apply Htot in H.
Qed.

(** X12. When [_create_summary] returns, its [total_redactions] is the
    length of the log, [by_type] maps every type of the log to the
    number of its entries and has no other key, and [by_severity] maps
    HIGH, MEDIUM and LOW to the number of entries of that severity. *)
Theorem create_summary_counts (log : list redaction) (s : summary) :
  _create_summary log = Some s ->
  total_redactions s = length log
  /\ (forall name,
        by_type s !! name
        = match length (List.filter
                          (fun r => String.eqb (r_type r) name) log) with
          | 0 => None
          | S n => Some (S n)
          end)
  /\ Forall (fun sev =>
               by_severity s !! sev
               = Some (length (List.filter
                                 (fun r => String.eqb (r_severity r) sev) log)))
            ["HIGH"; "MEDIUM"; "LOW"]%string.
Proof.
  intros H. pose proof (create_summary_total _ _ H) as Htot.
  unfold _create_summary in H.
  pose proof (count_redactions_lookup _ _ _ H) as [Hty Hsev].
  cbn [by_type by_severity] in *. split; [|split].
  - exact Htot.
  - intros name. rewrite Hty, lookup_empty. done.
  - repeat constructor; rewrite Hsev; reflexivity.
Qed.

Lemma create_summary_counts_witness :
  _create_summary [masking_entry] = Some masking_summary
  /\ total_redactions masking_summary = length [masking_entry]
  /\ (forall name,
        by_type masking_summary !! name
        = match length (List.filter
                          (fun r => String.eqb (r_type r) name)
                          [masking_entry]) with
          | 0 => None
          | S n => Some (S n)
          end)
  /\ Forall (fun sev =>
               by_severity masking_summary !! sev
               = Some (length (List.filter
                                 (fun r => String.eqb (r_severity r) sev)
                                 [masking_entry])))
            ["HIGH"; "MEDIUM"; "LOW"]%string.
Proof.
  assert (_create_summary [masking_entry] = Some masking_summary) as H
    by (vm_compute; reflexivity).
  split; [exact H|].
  exact (create_summary_counts [masking_entry] masking_summary H).
Defined.

(** ** The report *)

Lemma preview10_length original : length (preview10 original) <= 13.
Proof.
  unfold preview10. destruct (10 <? length original) eqn:E.
  - rewrite length_app, length_take. change (length (txt "...")) with 3. lia.
  - apply Nat.ltb_ge in E. lia.
Qed.

(** X13. [get_redaction_report] always returns; the report gives the
    same length for the document and for its redacted version, counts
    one detail per finding of the document, and no preview is longer
    than 13 characters. *)
Theorem redaction_report_consistent (content : text) :
  exists rp,
    get_redaction_report content = Some rp
    /\ document_length rp = length content
    /\ redacted_length rp = length content
    /\ total_findings rp = length (inspect_text content)
    /\ length (details rp) = length (inspect_text content)
    /\ total_redactions (rp_summary rp) = length (inspect_text content)
    /\ Forall (fun d => length (dt_preview d) <= 13
                        /\ dt_action d = "REDACTED"%string)
              (details rp).
Proof.
  destruct (redact_document_defined content) as (s & Hs & Hdoc).
  unfold get_redaction_report. rewrite Hdoc. eexists. split; [reflexivity|].
  cbn [document_length redacted_length total_findings details rp_summary
       d_redacted d_redaction_count d_redaction_log d_summary].
  pose proof (redact_text_log_length content true) as Hlen.
  apply create_summary_total in Hs as Htot.
  rewrite length_map, redact_text_length, Htot, Hlen.
  repeat split. apply Forall_forall. intros d Hd.
  apply list_elem_of_In, in_map_iff in Hd as (r & <- & _). simpl.
  split; [apply preview10_length|done].
Qed.

End RedactionFacts.

(* ===================================================================== *)
(** * More about the interceptor *)
(* ===================================================================== *)

Module InterceptorFacts.
Import Inspector PhantomRedactor RedactorFacts RedactorReport RedactionFacts
  Archestra ArchestraFacts.

(** ** Looking a trace up *)

Lemma find_by_id (l : list trace) id : forall j n,
  map trace_id l = map make_trace_id (seq j n) ->
  (forall i, j <= i < j + n -> id = make_trace_id i ->
     find (fun t => String.eqb (trace_id t) id) l = l !! (i - j))
  /\ ((forall i, j <= i < j + n -> id <> make_trace_id i) ->
      find (fun t => String.eqb (trace_id t) id) l = None).
Proof.
  induction l as [|t l IH]; intros j n Hids.
  - destruct n; [|done]. split; [intros; lia|done].
  - destruct n as [|n]; [done|]. simpl in Hids.
    injection Hids as Ht Hids. destruct (IH (S j) n Hids) as [IH1 IH2].
    split.
    + intros i Hi ->. simpl. rewrite Ht.
      destruct (decide (i = j)) as [->|Hne].
      * rewrite String.eqb_refl, Nat.sub_diag. done.
      * assert (make_trace_id j <> make_trace_id i) as Hd
          by (intros H; apply make_trace_id_inj in H; lia).
        apply String.eqb_neq in Hd. rewrite Hd.
        rewrite (IH1 i) by (lia || done).
        replace (i - j) with (S (i - S j)) by lia. done.
    + intros Hno. simpl. rewrite Ht.
      assert (make_trace_id j <> id) as Hd
        by (intros H; apply (Hno j); [lia|done]).
      apply String.eqb_neq in Hd. rewrite Hd.
      apply IH2. intros i Hi. apply Hno. lia.
Qed.

(** X14. On a well-formed interceptor the [i]-th allocated id finds the
    [i]-th trace of the log, and an id that was never allocated finds
    nothing. *)
Theorem get_trace_by_id_allocated (st : interceptor) (i : nat) :
  wf st ->
  (1 <= i <= interception_count st ->
   get_trace_by_id st (make_trace_id i) = trace_log st !! (i - 1)
   /\ is_Some (get_trace_by_id st (make_trace_id i)))
  /\ (interception_count st < i ->
      get_trace_by_id st (make_trace_id i) = None)
  /\ get_trace_by_id st (make_trace_id 0) = None.
Proof.
  intros Hwf. unfold wf in Hwf.
  destruct (find_by_id (trace_log st) (make_trace_id i) 1
              (interception_count st) Hwf) as [H1 H2].
  destruct (find_by_id (trace_log st) (make_trace_id 0) 1
              (interception_count st) Hwf) as [_ H0].
  assert (length (trace_log st) = interception_count st) as Hlen.
  { rewrite <- (length_map trace_id), Hwf, length_map. apply length_seq. }
  unfold get_trace_by_id. split; [|split].
  - intros Hi. rewrite (H1 i) by (lia || done). split; [done|].
    apply lookup_lt_is_Some. lia.
  - intros Hi. apply H2. intros k Hk Heq. apply make_trace_id_inj in Heq. lia.
  - apply H0. intros k Hk Heq. apply make_trace_id_inj in Heq. lia.
Qed.

Lemma get_trace_by_id_allocated_witness :
  wf password_run.2
  /\ (1 <= 1 <= interception_count password_run.2 ->
      get_trace_by_id password_run.2 (make_trace_id 1)
      = trace_log password_run.2 !! (1 - 1)
      /\ is_Some (get_trace_by_id password_run.2 (make_trace_id 1)))
  /\ (interception_count password_run.2 < 1 ->
      get_trace_by_id password_run.2 (make_trace_id 1) = None)
  /\ get_trace_by_id password_run.2 (make_trace_id 0) = None.
Proof.
  assert (wf password_run.2) as H by (vm_compute; reflexivity).
  split; [exact H|].
  exact (get_trace_by_id_allocated password_run.2 1 H).
Defined.

(** ** History *)

(** X15. With a positive limit [get_trace_history] returns the most
    recent traces: the log is some older traces followed by the answer,
    which has [limit] traces, or the whole log when it is shorter. *)
Theorem get_trace_history_recent (st : interceptor) (limit : Z) :
  (0 < limit)%Z ->
  (exists older, trace_log st = older ++ get_trace_history st limit)
  /\ length (get_trace_history st limit)
     = Nat.min (Z.to_nat limit) (length (trace_log st))
  /\ (Z.of_nat (length (trace_log st)) <= limit ->
      get_trace_history st limit = trace_log st)%Z.
Proof.
  intros Hl. destruct (get_trace_history_positive st limit Hl) as [-> Hlen].
  split; [|split].
  - eexists. symmetry. apply take_drop.
  - rewrite length_drop. lia.
  - intros Hle.
    replace (length (trace_log st) - Z.to_nat limit) with 0 by lia. done.
Qed.

Lemma get_trace_history_recent_witness :
  (0 < 1)%Z
  /\ (exists older,
        trace_log password_run.2 = older ++ get_trace_history password_run.2 1)
  /\ length (get_trace_history password_run.2 1)
     = Nat.min (Z.to_nat 1) (length (trace_log password_run.2))
  /\ (Z.of_nat (length (trace_log password_run.2)) <= 1 ->
      get_trace_history password_run.2 1 = trace_log password_run.2)%Z.
Proof.
  assert (0 < 1)%Z as H by lia.
  split; [exact H|].
  exact (get_trace_history_recent password_run.2 1 H).
Defined.

(** X16. A negative limit does not bound the history from the recent
    end: [get_trace_history(-k)] returns the log without its [k] oldest
    traces. *)
Theorem get_trace_history_negative (st : interceptor) (limit : Z) :
  (limit < 0)%Z ->
  get_trace_history st limit = drop (Z.to_nat (- limit)) (trace_log st).
Proof.
  intros Hl. unfold get_trace_history, slice_from.
  assert ((- limit <? 0)%Z = false) as -> by (apply Z.ltb_ge; lia).
  destruct (decide (Z.to_nat (- limit) <= length (trace_log st))) as [H|H].
  - f_equal. lia.
  - rewrite !drop_ge by lia. done.
Qed.

Lemma get_trace_history_negative_witness :
  (-1 < 0)%Z
  /\ get_trace_history password_run.2 (-1)
     = drop (Z.to_nat (- -1)) (trace_log password_run.2).
Proof.
  assert (-1 < 0)%Z as H by lia.
  split; [exact H|].
  exact (get_trace_history_negative password_run.2 (-1) H).
Defined.

(** ** Logging and completing *)

Lemma update_first_missing id f l :
  find (fun t => String.eqb (trace_id t) id) l = None ->
  update_first id f l = None.
Proof.
  induction l as [|t l IH]; simpl; [done|].
  destruct (String.eqb (trace_id t) id); [done|].
  intros H. by rewrite IH.
Qed.

Lemma update_first_found id f l t :
  find (fun t' => String.eqb (trace_id t') id) l = Some t ->
  trace_id (f t) = trace_id t ->
  exists l',
    update_first id f l = Some l'
    /\ find (fun t' => String.eqb (trace_id t') id) l' = Some (f t)
    /\ length l' = length l.
Proof.
  intros Hfind Hid. induction l as [|t0 l IH]; simpl in *; [done|].
  destruct (String.eqb (trace_id t0) id) eqn:E.
  - injection Hfind as ->. eexists. split; [reflexivity|]. simpl.
    by rewrite Hid, E.
  - destruct (IH Hfind) as (l' & -> & Hl' & Hlen). eexists.
    split; [reflexivity|]. simpl. rewrite E. split; [done|]. by rewrite Hlen.
Qed.

Section Steps.

Variable now : nat -> Z.

(** X17. Logging an event for, or completing, an id that no trace of
    the log has does nothing at all: no error, no change of the log,
    and the clock is not read. *)
Theorem unknown_id_is_ignored (st : interceptor)
  (id event_type description : string) (data : gmap string pyval) :
  get_trace_by_id st id = None ->
  _log_trace now id event_type description data st = (Some tt, st)
  /\ _complete_trace now id st = (Some tt, st).
Proof.
  unfold get_trace_by_id, _log_trace, _complete_trace. intros H.
  by rewrite !(update_first_missing _ _ _ H).
Qed.

(** X18. [_log_trace] appends the event to the trace that
    [get_trace_by_id] finds, whatever its status: a completed trace
    takes further events and stays completed. *)
Theorem log_trace_appends (st : interceptor) (t : trace)
  (id event_type description : string) (data : gmap string pyval) :
  get_trace_by_id st id = Some t ->
  exists t',
    get_trace_by_id
      (_log_trace now id event_type description data st).2 id = Some t'
    /\ events t'
       = events t ++ [{| e_type := event_type;
                         e_description := description;
                         e_data := data;
                         e_timestamp := now (clock st) |}]
    /\ status t' = status t
    /\ end_time t' = end_time t
    /\ clock (_log_trace now id event_type description data st).2
       = S (clock st).
Proof.
  unfold get_trace_by_id, _log_trace. intros H.
  edestruct (update_first_found id
               (add_event {| e_type := event_type;
                             e_description := description;
                             e_data := data;
                             e_timestamp := now (clock st) |})
               (trace_log st) t H) as (l' & -> & Hl' & _); [reflexivity|].
  eexists. split; [exact Hl'|]. by repeat split.
Qed.

(** X19. [_complete_trace] completes the trace that [get_trace_by_id]
    finds, whatever its status: completing a completed trace again
    overwrites its end time and its duration. *)
Theorem complete_trace_overwrites (st : interceptor) (t : trace) (id : string) :
  get_trace_by_id st id = Some t ->
  exists t',
    get_trace_by_id (_complete_trace now id st).2 id = Some t'
    /\ status t' = "completed"%string
    /\ end_time t' = Some (now (clock st))
    /\ duration t' = Some (now (clock st) - start_time t)%Z
    /\ events t' = events t
    /\ start_time t' = start_time t.
Proof.
  unfold get_trace_by_id, _complete_trace. intros H.
  edestruct (update_first_found id (complete (now (clock st)))
               (trace_log st) t H) as (l' & -> & Hl' & _); [reflexivity|].
  eexists. split; [exact Hl'|]. by repeat split.
Qed.

End Steps.

Lemma unknown_id_is_ignored_witness :
  get_trace_by_id init "TRACE-0001" = None
  /\ _log_trace Z.of_nat "TRACE-0001" "AGENT_READ" "read" ∅ init
     = (Some tt, init)
  /\ _complete_trace Z.of_nat "TRACE-0001" init = (Some tt, init).
Proof.
  assert (get_trace_by_id init "TRACE-0001" = None) as H by reflexivity.
  split; [exact H|].
  exact (unknown_id_is_ignored Z.of_nat init "TRACE-0001" "AGENT_READ" "read"
           ∅ H).
Defined.

Lemma log_trace_appends_witness :
  get_trace_by_id password_run.2 "TRACE-0001" = Some password_trace
  /\ status password_trace = "completed"%string
  /\ exists t',
       get_trace_by_id
         (_log_trace Z.of_nat "TRACE-0001" "LATE" "after the end" ∅
            password_run.2).2 "TRACE-0001" = Some t'
       /\ events t'
          = events password_trace
              ++ [{| e_type := "LATE"; e_description := "after the end";
                     e_data := ∅;
                     e_timestamp := Z.of_nat (clock password_run.2) |}]
       /\ status t' = status password_trace
       /\ end_time t' = end_time password_trace
       /\ clock (_log_trace Z.of_nat "TRACE-0001" "LATE" "after the end" ∅
                   password_run.2).2
          = S (clock password_run.2).
Proof.
  assert (get_trace_by_id password_run.2 "TRACE-0001" = Some password_trace)
    as H by (vm_compute; reflexivity).
  split; [exact H|]. split; [vm_compute; reflexivity|].
  exact (log_trace_appends Z.of_nat password_run.2 password_trace "TRACE-0001"
           "LATE" "after the end" ∅ H).
Defined.

Lemma complete_trace_overwrites_witness :
  get_trace_by_id password_run.2 "TRACE-0001" = Some password_trace
  /\ status password_trace = "completed"%string
  /\ exists t',
       get_trace_by_id (_complete_trace Z.of_nat "TRACE-0001" password_run.2).2
         "TRACE-0001" = Some t'
       /\ status t' = "completed"%string
       /\ end_time t' = Some (Z.of_nat (clock password_run.2))
       /\ duration t'
          = Some (Z.of_nat (clock password_run.2) - start_time password_trace)%Z
       /\ events t' = events password_trace
       /\ start_time t' = start_time password_trace.
Proof.
  assert (get_trace_by_id password_run.2 "TRACE-0001" = Some password_trace)
    as H by (vm_compute; reflexivity).
  split; [exact H|]. split; [vm_compute; reflexivity|].
  exact (complete_trace_overwrites Z.of_nat password_run.2 password_trace
           "TRACE-0001" H).
Defined.

(** ** What an interception returns and stores *)

Section MoreRuns.

Variable now : nat -> Z.

Ltac run :=
  cbv beta iota zeta
      delta [process_with_trace intercept bind ret lift _start_trace time_time
             _log_trace _complete_trace trace_log interception_count clock
             s_description s_data d_redacted d_summary d_redaction_log
             d_redaction_count].

Ltac log_last Hfresh :=
  rewrite update_first_last by (exact Hfresh || reflexivity).

(** What [process_with_trace] returns and what it stores in its
    trace. *)
Lemma process_with_trace_stores content st :
  wf st ->
  exists res t s,
    process_with_trace now content st
    = (Some res,
       {| trace_log := trace_log st ++ [t];
          interception_count := interception_count st + 1;
          clock := clock st + 10 |})
    /\ _create_summary (redact_text content true).2 = Some s
    /\ original_content res = content
    /\ redacted_content res = (redact_text content true).1
    /\ safe_data res = (redact_text content true).1
    /\ redaction_details res = (redact_text content true).2
    /\ redaction_summary res = s
    /\ interception_successful res = true
    /\ map s_step (trace_steps res) = [1; 2; 3; 4]
    /\ ((events t !! 0) ≫= fun e => e_data e !! "content_preview"%string)
       = Some (VStr (preview content))
    /\ ((events t !! 3) ≫= fun e => e_data e !! "safe_content_preview"%string)
       = Some (VStr (preview (redact_text content true).1))
    /\ ((trace_steps res !! 0) ≫= fun s => s_data s !! "content_preview"%string)
       = Some (VStr (preview content)).
Proof.
  intros Hwf. apply wf_fresh in Hwf as Hfresh.
  destruct (redact_document_defined content) as (s & Hs & Hdoc).
  destruct st as [l c k]. cbn [trace_log interception_count clock] in *.
  run. rewrite Hdoc. run.
  do 5 (log_last Hfresh; run).
  eexists _, _, s. split.
  { f_equal. apply interceptor_eq; [reflexivity | lia | lia]. }
  split; [exact Hs|]. by repeat split.
Qed.

(** X20. On a well-formed interceptor [process_with_trace] returns a
    result whose redacted content is as long as the content, whose
    details hold one entry per finding of the content, whose summary
    counts them, and whose four steps are numbered 1 to 4. *)
Theorem process_with_trace_result (content : text) (st : interceptor) :
  wf st ->
  exists res st',
    process_with_trace now content st = (Some res, st')
    /\ original_content res = content
    /\ safe_data res = redacted_content res
    /\ length (redacted_content res) = length content
    /\ length (redaction_details res) = length (inspect_text content)
    /\ PhantomRedactor.total_redactions (redaction_summary res)
       = length (inspect_text content)
    /\ map s_step (trace_steps res) = [1; 2; 3; 4]
    /\ interception_successful res = true.
Proof.
  intros Hwf.
  destruct (process_with_trace_stores content st Hwf)
    as (res & t & s & Hrun & Hs & Ho & Hr & Hsafe & Hd & Hsum & Hok & Hsteps & _).
  eexists res, _. split; [exact Hrun|].
  pose proof (redact_text_log_length content true) as Hlen.
  apply create_summary_total in Hs as Htot.
  rewrite Hsafe, Hr, Hd, Hsum, redact_text_length, Htot, Hlen.
  by repeat split.
Qed.

(** X21. The trace keeps the document as it was read: the AGENT_READ
    event of the trace, and the first step of the result, hold the
    first 100 characters of the original content, not of the redacted
    one; a document of at most 100 characters is stored whole. Only the
    preview of the SAFE_DATA_DELIVERED event is redacted. *)
Theorem trace_stores_original_preview (content : text) (st : interceptor) :
  wf st ->
  exists res st' t,
    process_with_trace now content st = (Some res, st')
    /\ get_trace_by_id st' (res_trace_id res) = Some t
    /\ ((events t !! 0) ≫= fun e => e_data e !! "content_preview"%string)
       = Some (VStr (if 100 <? length content
                     then take 100 content ++ txt "..." else content))
    /\ ((trace_steps res !! 0) ≫= fun s => s_data s !! "content_preview"%string)
       = Some (VStr (if 100 <? length content
                     then take 100 content ++ txt "..." else content))
    /\ ((events t !! 3) ≫= fun e => e_data e !! "safe_content_preview"%string)
       = Some (VStr (preview (redact_text content true).1)).
Proof.
  intros Hwf.
  destruct (process_with_trace_stores content st Hwf)
    as (res & t & s & Hrun & _ & _ & _ & _ & _ & _ & _ & _ & He0 & He3 & Hs0).
  destruct (process_with_trace_run now content st Hwf)
    as (res' & t' & Hrun' & Hid & _ & _ & _ & Ht & _).
  rewrite Hrun in Hrun'. injection Hrun' as <- Heq.
  apply app_inj_tail in Heq as [_ <-].
  eexists res, _, t. split; [exact Hrun|]. split.
  { unfold get_trace_by_id. cbn [trace_log]. rewrite Hid.
    apply find_last; [by apply wf_fresh|done]. }
  by repeat split.
Qed.

(** ** Statistics *)

Lemma process_all_stats contents : forall st,
  wf st -> monotone now ->
  (exists d, sum_traces (0, 0)%Z (trace_log st) = Some (0%Z, d) /\ (0 <= d)%Z) ->
  Forall (fun t => is_completed t = true) (trace_log st) ->
  exists rs st',
    process_all now contents st = (Some rs, st')
    /\ (exists d, sum_traces (0, 0)%Z (trace_log st') = Some (0%Z, d)
                  /\ (0 <= d)%Z)
    /\ Forall (fun t => is_completed t = true) (trace_log st')
    /\ length (trace_log st') = length (trace_log st) + length contents
    /\ interception_count st' = interception_count st + length contents.
Proof.
  induction contents as [|c cs IH]; intros st Hwf Hmono (d & Hsum & Hd) Hall.
  - exists [], st. simpl. rewrite !Nat.add_0_r. repeat split; eauto.
  - destruct (process_with_trace_run now c st Hwf)
      as (res & t & Hrun & _ & _ & _ & _ & Ht & _ & Hst & _ & _ & Hdur & Hred).
    destruct (IH _ (wf_push st t Hwf Ht) Hmono)
      as (rs & st' & Hrest & Hsum' & Hall' & Hlen & Hcount).
    { cbn [trace_log]. rewrite sum_traces_snoc, Hsum. simpl.
      rewrite Hst, Hred, Hdur. simpl. eexists. split; [reflexivity|].
      assert (now (clock st) <= now (clock st + 9))%Z by (apply Hmono; lia).
      lia. }
    { cbn [trace_log]. apply Forall_app. split; [done|].
      constructor; [|done]. unfold is_completed. by rewrite Hst. }
    exists (res :: rs), st'. cbn [process_all]. unfold bind at 1.
    rewrite Hrun. unfold bind at 1. rewrite Hrest.
    split; [reflexivity|]. split; [exact Hsum'|]. split; [exact Hall'|].
    cbn [trace_log interception_count] in Hlen, Hcount.
    rewrite length_app in Hlen. simpl in *. lia.
Qed.

Lemma filter_all_completed (l : list trace) :
  Forall (fun t => is_completed t = true) l ->
  length (filter is_completed l) = length l.
Proof.
  induction 1 as [|t l Ht Hl IH]; [done|].
  rewrite filter_cons_True by (by rewrite Ht). simpl. by rewrite IH.
Qed.

(** X22. After [N] calls of [process_with_trace] on a fresh interceptor
    whose clock never runs backwards, [get_statistics] returns, and
    reports [N] interceptions, [N] completed traces and an average
    duration that is not negative. *)
Theorem statistics_after_calls (contents : list text) :
  monotone now ->
  exists rs st' stats,
    process_all now contents init = (Some rs, st')
    /\ get_statistics st' = Some stats
    /\ total_interceptions stats = length contents
    /\ traces_completed stats = length contents
    /\ length (trace_log st') = length contents
    /\ (0 <= average_duration stats)%Q.
Proof.
  intros Hmono.
  destruct (process_all_stats contents init wf_init Hmono)
    as (rs & st' & Hrun & (d & Hsum & Hd) & Hall & Hlen & Hcount).
  { exists 0%Z. by split. }
  { constructor. }
  simpl in Hlen, Hcount.
  exists rs, st'. unfold get_statistics. rewrite Hsum. eexists.
  split; [exact Hrun|]. split; [reflexivity|].
  cbn [total_interceptions traces_completed average_duration].
  rewrite filter_all_completed by done.
  repeat split; try done.
  destruct (trace_log st'); [done|].
  unfold Qle. simpl. lia.
Qed.

(** What the wrapper of [intercept] stores in its trace. *)
Lemma intercept_stores args kwargs st :
  wf st ->
  exists t,
    (forall (R : Type) (func : list text -> gmap string text -> option R) r,
        func (call_of args kwargs).1 (call_of args kwargs).2 = Some r ->
        intercept now func args kwargs st
        = (Some r,
           {| trace_log := trace_log st ++ [t];
              interception_count := interception_count st + 1;
              clock := clock st + 10 |}))
    /\ status t = "completed"%string
    /\ (exists d, duration t = Some d)
    /\ (forall total,
          sum_redactions total (events t)
          = Some (total
                  + Z.of_nat
                      (length (redact_text (content_of args kwargs) true).2))%Z).
Proof.
  intros Hwf. apply wf_fresh in Hwf as Hfresh.
  destruct (redact_document_defined (content_of args kwargs)) as (s & _ & Hdoc).
  destruct st as [l c k]. cbn [trace_log interception_count clock] in *.
  eexists. split.
  { intros R func r Hr. run. rewrite Hdoc. run.
    do 4 (log_last Hfresh; run).
    change (substituted (redact_text (content_of args kwargs) true).1
              args kwargs)
      with (call_of args kwargs).
    rewrite Hr. log_last Hfresh. f_equal.
    apply interceptor_eq; [reflexivity | lia | lia]. }
  split; [reflexivity|]. split; [by eexists|].
  intros total. cbn. by rewrite lookup_insert_eq.
Qed.

(** X23. The statistics do count the redactions of the interceptions
    made through the wrapper of [intercept]: when the wrapped function
    returns, [total_redactions] grows by the number of findings of the
    content. *)
Theorem statistics_count_wrapper_redactions {R : Type}
  (func : list text -> gmap string text -> option R)
  (args : list text) (kwargs : gmap string text) (st : interceptor)
  (r : R) (total total_duration : Z) :
  wf st ->
  sum_traces (0, 0)%Z (trace_log st) = Some (total, total_duration) ->
  func (call_of args kwargs).1 (call_of args kwargs).2 = Some r ->
  total_redactions <$> get_statistics st = Some total
  /\ total_redactions <$> get_statistics (intercept now func args kwargs st).2
     = Some (total
             + Z.of_nat (length (inspect_text (content_of args kwargs))))%Z.
Proof.
  intros Hwf Hsum Hr.
  destruct (intercept_stores args kwargs st Hwf) as (t & Hrun & Hst & [d Hd] & Hred).
  split; [unfold get_statistics; by rewrite Hsum|].
  rewrite (Hrun R func r Hr). unfold get_statistics. cbn [snd trace_log].
  rewrite sum_traces_snoc, Hsum. simpl. rewrite Hst, Hred. simpl.
  by rewrite (redact_text_log_length (content_of args kwargs) true).
Qed.

(** X24. When the wrapped function raises, the wrapper raises: the
    interception has been counted and its trace, the last of the log,
    is left in progress. *)
Theorem intercept_raise_leaves_trace_open {R : Type}
  (func : list text -> gmap string text -> option R)
  (args : list text) (kwargs : gmap string text) (st : interceptor) :
  wf st ->
  func (call_of args kwargs).1 (call_of args kwargs).2 = None ->
  exists st',
    intercept now func args kwargs st = (None, st')
    /\ map status (trace_log st')
       = map status (trace_log st) ++ ["in_progress"%string]
    /\ interception_count st' = interception_count st + 1.
Proof.
  intros Hwf Hr.
  destruct (intercept_raises now func args kwargs st Hwf Hr)
    as (st' & Hrun & Hwf' & Hst).
  exists st'. split; [exact Hrun|]. split; [exact Hst|].
  assert (length (trace_log st') = length (trace_log st) + 1) as Hlen.
  { rewrite <- (length_map status), Hst, length_app, length_map. done. }
  unfold wf in Hwf, Hwf'.
  apply (f_equal length) in Hwf, Hwf'.
  rewrite !length_map, !length_seq in Hwf, Hwf'. lia.
Qed.

End MoreRuns.

Lemma process_with_trace_result_witness :
  wf init
  /\ exists res st',
       process_with_trace Z.of_nat masking_text init = (Some res, st')
       /\ original_content res = masking_text
       /\ safe_data res = redacted_content res
       /\ length (redacted_content res) = length masking_text
       /\ length (redaction_details res) = length (inspect_text masking_text)
       /\ PhantomRedactor.total_redactions (redaction_summary res)
          = length (inspect_text masking_text)
       /\ map s_step (trace_steps res) = [1; 2; 3; 4]
       /\ interception_successful res = true.
Proof.
  assert (wf init) as H by reflexivity.
  split; [exact H|].
  exact (process_with_trace_result Z.of_nat masking_text init H).
Defined.

Lemma trace_stores_original_preview_witness :
  wf init
  /\ exists res st' t,
       process_with_trace Z.of_nat masking_text init = (Some res, st')
       /\ get_trace_by_id st' (res_trace_id res) = Some t
       /\ ((events t !! 0) ≫= fun e => e_data e !! "content_preview"%string)
          = Some (VStr (if 100 <? length masking_text
                        then take 100 masking_text ++ txt "..."
                        else masking_text))
       /\ ((trace_steps res !! 0)
             ≫= fun s => s_data s !! "content_preview"%string)
          = Some (VStr (if 100 <? length masking_text
                        then take 100 masking_text ++ txt "..."
                        else masking_text))
       /\ ((events t !! 3)
             ≫= fun e => e_data e !! "safe_content_preview"%string)
          = Some (VStr (preview (redact_text masking_text true).1)).
Proof.
  assert (wf init) as H by reflexivity.
  split; [exact H|].
  exact (trace_stores_original_preview Z.of_nat masking_text init H).
Defined.

Lemma statistics_after_calls_witness :
  monotone Z.of_nat
  /\ exists rs st' stats,
       process_all Z.of_nat [masking_text; detection_text] init = (Some rs, st')
       /\ get_statistics st' = Some stats
       /\ total_interceptions stats = length [masking_text; detection_text]
       /\ traces_completed stats = length [masking_text; detection_text]
       /\ length (trace_log st') = length [masking_text; detection_text]
       /\ (0 <= average_duration stats)%Q.
Proof.
  assert (monotone Z.of_nat) as H by (intros i j Hij; lia).
  split; [exact H|].
  exact (statistics_after_calls Z.of_nat [masking_text; detection_text] H).
Defined.

Lemma statistics_count_wrapper_redactions_witness :
  wf init
  /\ sum_traces (0, 0)%Z (trace_log init) = Some (0, 0)%Z
  /\ spy (call_of [masking_text] ∅).1 (call_of [masking_text] ∅).2
     = Some ([txt "Pa*******************"], ∅)
  /\ total_redactions <$> get_statistics init = Some 0%Z
  /\ total_redactions
       <$> get_statistics (intercept Z.of_nat spy [masking_text] ∅ init).2
     = Some (0 + Z.of_nat
                   (length (inspect_text (content_of [masking_text] ∅))))%Z.
Proof.
  assert (wf init) as H1 by reflexivity.
  assert (sum_traces (0, 0)%Z (trace_log init) = Some (0, 0)%Z) as H2
    by reflexivity.
  assert (spy (call_of [masking_text] ∅).1 (call_of [masking_text] ∅).2
          = Some ([txt "Pa*******************"], ∅)) as H3
    by (vm_compute; reflexivity).
  split; [exact H1|]. split; [exact H2|]. split; [exact H3|].
  exact (statistics_count_wrapper_redactions Z.of_nat spy [masking_text] ∅ init
           _ 0 0 H1 H2 H3).
Defined.

Lemma intercept_raise_leaves_trace_open_witness :
  wf init
  /\ raising (call_of [masking_text] ∅).1 (call_of [masking_text] ∅).2 = None
  /\ exists st',
       intercept Z.of_nat raising [masking_text] ∅ init = (None, st')
       /\ map status (trace_log st')
          = map status (trace_log init) ++ ["in_progress"%string]
       /\ interception_count st' = interception_count init + 1.
Proof.
  assert (wf init) as H1 by reflexivity.
  assert (raising (call_of [masking_text] ∅).1 (call_of [masking_text] ∅).2
          = None) as H2 by reflexivity.
  split; [exact H1|]. split; [exact H2|].
  exact (intercept_raise_leaves_trace_open Z.of_nat raising [masking_text] ∅
           init H1 H2).
Defined.

End InterceptorFacts.

(* ===================================================================== *)
(** * The breach checker's batch *)
(* ===================================================================== *)

Module BreachFacts.
Import BreachChecker.

Lemma mask3_length pwd : length (mask3 pwd) = length pwd.
Proof.
  unfold mask3. rewrite length_app, length_take, length_replicate. lia.
Qed.

Lemma mask3_prefix pwd : take 3 (mask3 pwd) = take 3 pwd.
Proof.
  unfold mask3. destruct (decide (3 <= length pwd)) as [H|H].
  - rewrite take_app_le by (rewrite length_take; lia).
    rewrite take_take. by rewrite Nat.min_id.
  - replace (length pwd - 3) with 0 by lia. simpl. by rewrite app_nil_r, take_take.
Qed.

Lemma mask3_star pwd i :
  3 <= i < length pwd -> mask3 pwd !! i = Some "*"%char.
Proof.
  intros Hi. unfold mask3.
  rewrite lookup_app_r; rewrite length_take; [|lia].
  apply lookup_replicate_2. lia.
Qed.

Lemma mask3_short pwd : length pwd <= 3 -> mask3 pwd = pwd.
Proof.
  intros H. unfold mask3. replace (length pwd - 3) with 0 by lia.
  simpl. rewrite app_nil_r. by apply take_ge.
Qed.

(** X25. [batch_check] returns one entry per password, in order, with
    the answer of the check; the password of an entry is as long as the
    password checked, shows its first three characters and a [*] for
    every other one, so a password of at most three characters is
    returned as it is. *)
Theorem batch_check_masks
  (check_password : nat -> text -> bool * Z * option text)
  (passwords : list text) :
  length (batch_check check_password passwords) = length passwords
  /\ Forall2
       (fun pwd e =>
          length (password e) = length pwd
          /\ take 3 (password e) = take 3 pwd
          /\ (forall i, 3 <= i < length pwd ->
                password e !! i = Some "*"%char)
          /\ (length pwd <= 3 -> password e = pwd))
       passwords (batch_check check_password passwords)
  /\ (forall i pwd,
        passwords !! i = Some pwd ->
        (fun e => (is_breached e, breach_count e, error e))
          <$> batch_check check_password passwords !! i
        = Some (check_password i pwd)).
Proof.
  unfold batch_check.
  assert (forall n, Forall2
            (fun pwd e =>
               length (password e) = length pwd
               /\ take 3 (password e) = take 3 pwd
               /\ (forall i, 3 <= i < length pwd ->
                     password e !! i = Some "*"%char)
               /\ (length pwd <= 3 -> password e = pwd))
            passwords (batch_check_from check_password n passwords)) as HF.
  { induction passwords as [|pwd rest IH]; intros n; simpl; [constructor|].
    destruct (check_password n pwd) as [[b c] e]. constructor; [|apply IH].
    simpl. split; [apply mask3_length|]. split; [apply mask3_prefix|].
    split; [apply mask3_star | apply mask3_short]. }
  split; [symmetry; exact (Forall2_length _ _ _ (HF 0))|].
  split; [apply HF|].
  assert (forall k i pwd, passwords !! i = Some pwd ->
            (fun e => (is_breached e, breach_count e, error e))
              <$> batch_check_from check_password k passwords !! i
            = Some (check_password (k + i) pwd)) as Hk.
  { clear. induction passwords as [|p rest IH]; intros k i pwd Hi; [done|].
    simpl. destruct (check_password k p) as [[b c] e] eqn:E.
    destruct i as [|i]; simpl in *.
    - injection Hi as <-. by rewrite Nat.add_0_r, E.
    - rewrite (IH (S k) i pwd Hi). f_equal. f_equal. lia. }
  intros i pwd Hi. exact (Hk 0 i pwd Hi).
Qed.

(** X26. [analyze_password_strength] reports the length of the
    password and the answer of the check as it is, and grades the risk
    by that answer alone: LOW exactly when the answer is not breached
    (also when the check ended in an error), and for a breached answer
    CRITICAL above 100000 breaches, HIGH above 10000 and up to 100000,
    MEDIUM up to 10000. *)
Theorem analyze_risk_levels
  (check_password : nat -> text -> bool * Z * option text)
  (calls : nat) (pwd : text) :
  let a := analyze_password_strength check_password calls pwd in
  password_length a = length pwd
  /\ (a_is_breached a, a_breach_count a, a_error a) = check_password calls pwd
  /\ (risk_level a = "LOW"%string <-> a_is_breached a = false)
  /\ (risk_level a = "CRITICAL"%string
      <-> a_is_breached a = true /\ (100000 < a_breach_count a)%Z)
  /\ (risk_level a = "HIGH"%string
      <-> a_is_breached a = true /\ (10000 < a_breach_count a <= 100000)%Z)
  /\ (risk_level a = "MEDIUM"%string
      <-> a_is_breached a = true /\ (a_breach_count a <= 10000)%Z)
  /\ (a_is_breached a = false ->
      recommendation a = "No breaches found for this password."%string).
Proof.
  unfold analyze_password_strength.
  destruct (check_password calls pwd) as [[breached count] err].
  destruct breached; cbn zeta.
  - destruct (100000 <? count)%Z eqn:E1; [|destruct (10000 <? count)%Z eqn:E2];
      cbn [password_length a_is_breached a_breach_count a_error risk_level
           recommendation];
      try apply Z.ltb_lt in E1; try apply Z.ltb_ge in E1;
      try apply Z.ltb_lt in E2; try apply Z.ltb_ge in E2;
      repeat split; try done; try lia; intros; try lia;
      try (exfalso; lia).
  - cbn [password_length a_is_breached a_breach_count a_error risk_level
         recommendation].
    repeat split; try done; intros [? ?]; done.
Qed.

End BreachFacts.
